(** * termdash: area arithmetic and table cell construction

  A shallow embedding of [internal/area/area.go] and of the table package's
  [content_cell.go], together with the properties their specification
  states about them.

  Go's [int] is modelled as a [Z] kept inside the 64-bit two's-complement
  range, every arithmetic result being reduced by [wrap].  Functions that
  return [(value, error)] return a pair whose second component is
  [None] for Go's [nil] error.  A run-time panic (integer division by zero,
  nil dereference) is the [None] of an [option] result. *)

From Stdlib Require Import ZArith List String Bool Lia.
Import ListNotations.
Local Open Scope Z_scope.

(* ================================================================== *)
(** ** Go's [int] on a 64-bit target *)

Module GoInt.

Definition intMin : Z := - 2 ^ 63.
Definition intMax : Z := 2 ^ 63 - 1.

(** The values an [int] variable can hold. *)
Definition is_int (z : Z) : Prop := intMin <= z <= intMax.

(** Two's-complement reduction of a mathematical result. *)
Definition wrap (z : Z) : Z := (z + 2 ^ 63) mod 2 ^ 64 - 2 ^ 63.

Definition add (a b : Z) : Z := wrap (a + b).
Definition sub (a b : Z) : Z := wrap (a - b).
Definition mul (a b : Z) : Z := wrap (a * b).
Definition neg (a : Z) : Z := wrap (- a).

(** [a / b] for a divisor known to be non-zero: truncation toward zero. *)
Definition quo (a b : Z) : Z := wrap (Z.quot a b).

(** [a / b] in general: division by zero is a run-time panic. *)
Definition div (a b : Z) : option Z :=
  if b =? 0 then None else Some (quo a b).

End GoInt.
Import GoInt.

(* ================================================================== *)
(** ** The [image] package of Go's standard library *)

Module image.

Record Point : Type := mkPoint { X : Z; Y : Z }.
Record Rectangle : Type := mkRectangle { Min : Point; Max : Point }.

(** [image.ZP] and [image.ZR]. *)
Definition ZP : Point := mkPoint 0 0.
Definition ZR : Rectangle := mkRectangle ZP ZP.

(** [image.Rect]: the corners are put in canonical order. *)
Definition Rect (x0 y0 x1 y1 : Z) : Rectangle :=
  let '(x0, x1) := if x0 >? x1 then (x1, x0) else (x0, x1) in
  let '(y0, y1) := if y0 >? y1 then (y1, y0) else (y0, y1) in
  mkRectangle (mkPoint x0 y0) (mkPoint x1 y1).

Definition Dx (r : Rectangle) : Z := sub (X (Max r)) (X (Min r)).
Definition Dy (r : Rectangle) : Z := sub (Y (Max r)) (Y (Min r)).

(** Go's [==] on the two struct types. *)
Definition Point_eqb (p q : Point) : bool :=
  (X p =? X q) && (Y p =? Y q).
Definition Rectangle_eqb (r s : Rectangle) : bool :=
  Point_eqb (Min r) (Min s) && Point_eqb (Max r) (Max s).

(** Typing: every coordinate is an [int]. *)
Definition int_point (p : Point) : Prop := is_int (X p) /\ is_int (Y p).
Definition int_rect (r : Rectangle) : Prop :=
  int_point (Min r) /\ int_point (Max r).

(** The data model's invariant: min <= max componentwise. *)
Definition well_formed (r : Rectangle) : Prop :=
  X (Min r) <= X (Max r) /\ Y (Min r) <= Y (Max r).

(** The mathematical width and height are themselves [int]s, so that
    [Dx] and [Dy] return them unreduced. *)
Definition width_fits (r : Rectangle) : Prop :=
  X (Max r) - X (Min r) <= intMax.
Definition height_fits (r : Rectangle) : Prop :=
  Y (Max r) - Y (Min r) <= intMax.

End image.
Import image.

(* ================================================================== *)
(** ** Errors built by [fmt.Errorf] *)

Inductive fmt_arg : Type :=
| ArgInt (z : Z)
| ArgString (s : string)
| ArgPoint (p : Point).

(** An error value: the format string and its operands. *)
Record error : Type := Errorf { format : string; operands : list fmt_arg }.

(* ================================================================== *)
(** ** The numeric helper package [internal/numbers] *)

Module numbers.

(** Modelled from the spec: [numbers.Abs] is not among the sources; the
    specification describes it as the helper's absolute value. *)
Definition Abs (x : Z) : Z := if x <? 0 then neg x else x.

(** [math.MaxInt32]. *)
Definition MaxInt32 : Z := 2147483647.

(** Modelled from the spec: [numbers.MinMaxInts] is not among the sources;
    the specification describes it as min/max selection over a set of
    integers.  As in the helper, both results are zero for an empty slice,
    and the search starts from [math.MaxInt32] for the minimum and from
    [-1 * math.MaxInt32] for the maximum: a minimum above the first or a
    maximum below the second is not found. *)
Definition MinMaxInts (values : list Z) : Z * Z :=
  match values with
  | [] => (0, 0)
  | _ :: _ =>
      fold_left (fun '(min, max) v =>
                   (if v <? min then v else min, if v >? max then v else max))
                values (MaxInt32, -1 * MaxInt32)
  end.

(** The rounds of the Euclidean algorithm in [findGCF]:
    [rem := a % b; a = b; b = rem], until [b] is zero.  [fuel] bounds the
    number of rounds; the bound is never reached on two [int]s (lemma
    [gcf_rounds_gcd]). *)
Fixpoint gcf_rounds (fuel : nat) (a b : Z) : Z :=
  match fuel with
  | O => a
  | S fuel' =>
      let rem := Z.rem a b in
      if rem =? 0 then b else gcf_rounds fuel' b rem
  end.

(** Modelled from the spec: the greatest common factor behind
    [numbers.SimplifyRatio] is not among the sources.  As in the helper, it
    is zero when either number is zero, and otherwise the result of the
    Euclidean algorithm on the two absolute values. *)
Definition findGCF (a b : Z) : Z :=
  if (a =? 0) || (b =? 0) then 0
  else gcf_rounds 130 (Abs a) (Abs b).

(** Modelled from the spec: [numbers.SimplifyRatio] is not among the
    sources; the specification describes it as reducing a ratio to lowest
    terms via the greatest common divisor.  As in the helper, a ratio with a
    zero component has the common factor zero and becomes the zero point. *)
Definition SimplifyRatio (ratio : Point) : Point :=
  let gcf := findGCF (X ratio) (Y ratio) in
  if gcf =? 0 then ZP
  else mkPoint (quo (X ratio) gcf) (quo (Y ratio) gcf).

End numbers.

(* ================================================================== *)
(** ** Package [area] *)

Module area.

(** [Size] returns the size of the provided area. *)
Definition Size (area : Rectangle) : Point :=
  mkPoint (Dx area) (Dy area).

(** [FromSize] returns the corresponding area for the provided size. *)
Definition FromSize (size : Point) : Rectangle * option error :=
  if (X size <? 0) || (Y size <? 0) then
    (mkRectangle (mkPoint 0 0) (mkPoint 0 0),
     Some (Errorf "cannot convert zero or negative size to an area, got: %+v"
                  [ArgPoint size]))
  else (Rect 0 0 (X size) (Y size), None).

(** [HSplit] splits the area at the given percentage of its height. *)
Definition HSplit (area : Rectangle) (heightPerc : Z)
  : Rectangle * Rectangle * option error :=
  let min := 0 in
  let max := 100 in
  if (heightPerc <? min) || (heightPerc >? max) then
    (ZR, ZR,
     Some (Errorf "invalid heightPerc %d, must be in range %d <= heightPerc <= %d"
                  [ArgInt heightPerc; ArgInt min; ArgInt max]))
  else
    let height := quo (mul (Dy area) heightPerc) 100 in
    let top := Rect (X (Min area)) (Y (Min area))
                    (X (Max area)) (add (Y (Min area)) height) in
    let top := if Dy top =? 0 then ZR else top in
    let bottom := Rect (X (Min area)) (add (Y (Min area)) height)
                       (X (Max area)) (Y (Max area)) in
    let bottom := if Dy bottom =? 0 then ZR else bottom in
    (top, bottom, None).

(** [VSplit] splits the area at the given percentage of its width. *)
Definition VSplit (area : Rectangle) (widthPerc : Z)
  : Rectangle * Rectangle * option error :=
  let min := 0 in
  let max := 100 in
  if (widthPerc <? min) || (widthPerc >? max) then
    (ZR, ZR,
     Some (Errorf "invalid widthPerc %d, must be in range %d <= widthPerc <= %d"
                  [ArgInt widthPerc; ArgInt min; ArgInt max]))
  else
    let width := quo (mul (Dx area) widthPerc) 100 in
    let left := Rect (X (Min area)) (Y (Min area))
                     (add (X (Min area)) width) (Y (Max area)) in
    let left := if Dx left =? 0 then ZR else left in
    let right := Rect (add (X (Min area)) width) (Y (Min area))
                      (X (Max area)) (Y (Max area)) in
    let right := if Dx right =? 0 then ZR else right in
    (left, right, None).

(** [ExcludeBorder] subtracts a border around the area. *)
Definition ExcludeBorder (area : Rectangle) : Rectangle :=
  let minDim := 2 in
  if (Dx area <? minDim) || (Dy area <? minDim) then ZR
  else Rect (numbers.Abs (add (X (Min area)) 1))
            (numbers.Abs (add (Y (Min area)) 1))
            (numbers.Abs (sub (X (Max area)) 1))
            (numbers.Abs (sub (Y (Max area)) 1)).

(** [WithRatio] returns the largest area of the requested ratio that fits
    into the provided one.  [None] is the integer-divide-by-zero panic. *)
Definition WithRatio (area : Rectangle) (ratio : Point) : option Rectangle :=
  let ratio := numbers.SimplifyRatio ratio in
  if Rectangle_eqb area ZR || Point_eqb ratio ZP then Some ZR
  else
    match div (Dx area) (X ratio) with
    | None => None
    | Some wFact =>
        match div (Dy area) (Y ratio) with
        | None => None
        | Some hFact =>
            let fact := if wFact <? hFact then wFact else hFact in
            Some (Rect (X (Min area))
                       (Y (Min area))
                       (add (mul (X ratio) fact) (X (Min area)))
                       (add (mul (Y ratio) fact) (Y (Min area))))
        end
    end.

(** The range loop of [Shrink]: the first negative value stops it. *)
Fixpoint first_negative (vs : list (string * Z)) : option error :=
  match vs with
  | [] => None
  | (name, value) :: rest =>
      let min := 0 in
      if value <? min then
        Some (Errorf "invalid %s(%d), must be in range %d <= value"
                     [ArgString name; ArgInt value; ArgInt min])
      else first_negative rest
  end.

(** [Shrink] reduces the area by the given number of cells on each side. *)
Definition Shrink (area : Rectangle) (topCells rightCells bottomCells leftCells : Z)
  : Rectangle * option error :=
  match first_negative [("topCells"%string, topCells);
                        ("rightCells"%string, rightCells);
                        ("bottomCells"%string, bottomCells);
                        ("leftCells"%string, leftCells)] with
  | Some err => (ZR, Some err)
  | None =>
      let minX := fst (numbers.MinMaxInts [add (X (Min area)) leftCells; X (Max area)]) in
      let maxX := snd (numbers.MinMaxInts [sub (X (Max area)) rightCells; minX]) in
      let minY := fst (numbers.MinMaxInts [add (Y (Min area)) topCells; Y (Max area)]) in
      let maxY := snd (numbers.MinMaxInts [sub (Y (Max area)) bottomCells; minY]) in
      let shrinked := mkRectangle (mkPoint minX minY) (mkPoint maxX maxY) in
      if (Dx shrinked =? 0) || (Dy shrinked =? 0) then (ZR, None)
      else (shrinked, None)
  end.

(** The range loop of [ShrinkPercent]. *)
Fixpoint first_out_of_range (vs : list (string * Z)) : option error :=
  match vs with
  | [] => None
  | (name, value) :: rest =>
      let min := 0 in
      let max := 100 in
      if (value <? min) || (value >? max) then
        Some (Errorf "invalid %s(%d), must be in range %d <= value <= %d"
                     [ArgString name; ArgInt value; ArgInt min; ArgInt max])
      else first_out_of_range rest
  end.

(** [ShrinkPercent] reduces the area by percentages of its dimensions. *)
Definition ShrinkPercent (area : Rectangle) (topPerc rightPerc bottomPerc leftPerc : Z)
  : Rectangle * option error :=
  match first_out_of_range [("topPerc"%string, topPerc);
                            ("rightPerc"%string, rightPerc);
                            ("bottomPerc"%string, bottomPerc);
                            ("leftPerc"%string, leftPerc)] with
  | Some err => (ZR, Some err)
  | None =>
      let top := quo (mul (Dy area) topPerc) 100 in
      let bottom := quo (mul (Dy area) bottomPerc) 100 in
      let right := quo (mul (Dx area) rightPerc) 100 in
      let left := quo (mul (Dx area) leftPerc) 100 in
      Shrink area top right bottom left
  end.

End area.
Import area.

(* ================================================================== *)
(** ** Package [table]: content_cell.go *)

Module table.

(** What the file takes from elsewhere: the text fragment type [Data] and
    its constructor, declared in another file of the package, and from other
    packages [cell.Option], the two alignment enumerations and the wrapping
    mode with its [wrap.AtWords] value. *)
Class Collaborators : Type := {
  Data : Type;
  NewData : string -> Data;
  cell_Option : Type;
  align_Horizontal : Type;
  align_Vertical : Type;
  wrap_Mode : Type;
  wrap_AtWords : wrap_Mode
}.

Section CellModel.

Context `{Collaborators}.

(** Modelled from the spec: the struct [hierarchicalOptions] is declared in
    another file of the package; it is a record of nullable fields, the
    seven that the setters below write.  A nil pointer or nil slice is
    [None] or [[]]. *)
Record hierarchicalOptions : Type := mkHierarchicalOptions {
  cellOpts : list cell_Option;
  height : option Z;
  horizontalPadding : option Z;
  verticalPadding : option Z;
  alignHorizontal : option align_Horizontal;
  alignVertical : option align_Vertical;
  wrapMode : option wrap_Mode
}.

(** [Cell] is one cell in a Row.  [hierarchical] is a pointer: [None] is
    nil. *)
Record Cell : Type := mkCell {
  data : list Data;
  colSpan : Z;
  rowSpan : Z;
  hierarchical : option hierarchicalOptions
}.

(** [cellOption] is a function on a [*Cell]; the updated cell is returned,
    and [None] is the panic of a nil dereference. *)
Definition CellOption : Type := Cell -> option Cell.

Definition set (co : CellOption) (c : Cell) : option Cell := co c.

(** A write through [c.hierarchical]. *)
Definition through_hierarchical (c : Cell)
  (write : hierarchicalOptions -> hierarchicalOptions) : option Cell :=
  match hierarchical c with
  | None => None
  | Some h => Some (mkCell (data c) (colSpan c) (rowSpan c) (Some (write h)))
  end.

Definition CellColSpan (cols : Z) : CellOption :=
  fun c => Some (mkCell (data c) cols (rowSpan c) (hierarchical c)).

Definition CellRowSpan (rows : Z) : CellOption :=
  fun c => Some (mkCell (data c) (colSpan c) rows (hierarchical c)).

Definition CellOpts (opts : list cell_Option) : CellOption :=
  fun c => through_hierarchical c (fun h =>
    mkHierarchicalOptions opts (height h) (horizontalPadding h)
      (verticalPadding h) (alignHorizontal h) (alignVertical h) (wrapMode h)).

Definition CellHeight (cells : Z) : CellOption :=
  fun c => through_hierarchical c (fun h =>
    mkHierarchicalOptions (cellOpts h) (Some cells) (horizontalPadding h)
      (verticalPadding h) (alignHorizontal h) (alignVertical h) (wrapMode h)).

Definition CellHorizontalPadding (cells : Z) : CellOption :=
  fun c => through_hierarchical c (fun h =>
    mkHierarchicalOptions (cellOpts h) (height h) (Some cells)
      (verticalPadding h) (alignHorizontal h) (alignVertical h) (wrapMode h)).

Definition CellVerticalPadding (cells : Z) : CellOption :=
  fun c => through_hierarchical c (fun h =>
    mkHierarchicalOptions (cellOpts h) (height h) (horizontalPadding h)
      (Some cells) (alignHorizontal h) (alignVertical h) (wrapMode h)).

Definition CellAlignHorizontal (a : align_Horizontal) : CellOption :=
  fun c => through_hierarchical c (fun h =>
    mkHierarchicalOptions (cellOpts h) (height h) (horizontalPadding h)
      (verticalPadding h) (Some a) (alignVertical h) (wrapMode h)).

Definition CellAlignVertical (v : align_Vertical) : CellOption :=
  fun c => through_hierarchical c (fun h =>
    mkHierarchicalOptions (cellOpts h) (height h) (horizontalPadding h)
      (verticalPadding h) (alignHorizontal h) (Some v) (wrapMode h)).

Definition CellWrapAtWords : CellOption :=
  fun c => through_hierarchical c (fun h =>
    let wm := wrap_AtWords in
    mkHierarchicalOptions (cellOpts h) (height h) (horizontalPadding h)
      (verticalPadding h) (alignHorizontal h) (alignVertical h) (Some wm)).

(** The loop of [NewCellWithOpts]. *)
Fixpoint apply_opts (opts : list CellOption) (c : Cell) : option Cell :=
  match opts with
  | [] => Some c
  | opt :: rest =>
      match set opt c with
      | None => None
      | Some c' => apply_opts rest c'
      end
  end.

(** The zero value [hierarchicalOptions{}]. *)
Definition no_overrides : hierarchicalOptions :=
  mkHierarchicalOptions [] None None None None None None.

(** [NewCellWithOpts] returns a new Cell with the provided data and
    options. *)
Definition NewCellWithOpts (data : list Data) (opts : list CellOption)
  : option Cell :=
  let c := mkCell data 1 1 (Some no_overrides) in
  apply_opts opts c.

(** [NewCell] returns a new Cell with the provided text. *)
Definition NewCell (text : string) : option Cell :=
  NewCellWithOpts [NewData text] [].

(** *** Vocabulary of the properties

    The interface [CellOption] has an unexported method, so the nine
    constructors of this file are the only options a caller can build.
    [setter] names them, [target] is the field each one writes and
    [stored] the value it writes there. *)

Inductive setter : Type :=
| ColSpan (cols : Z)
| RowSpan (rows : Z)
| Opts (opts : list cell_Option)
| Height (cells : Z)
| HorizontalPadding (cells : Z)
| VerticalPadding (cells : Z)
| AlignHorizontal (a : align_Horizontal)
| AlignVertical (v : align_Vertical)
| WrapAtWords.

Definition option_of (s : setter) : CellOption :=
  match s with
  | ColSpan cols => CellColSpan cols
  | RowSpan rows => CellRowSpan rows
  | Opts opts => CellOpts opts
  | Height cells => CellHeight cells
  | HorizontalPadding cells => CellHorizontalPadding cells
  | VerticalPadding cells => CellVerticalPadding cells
  | AlignHorizontal a => CellAlignHorizontal a
  | AlignVertical v => CellAlignVertical v
  | WrapAtWords => CellWrapAtWords
  end.

(** The fields of a Cell and of its hierarchical options, [data] apart. *)
Inductive field : Type :=
| f_colSpan | f_rowSpan | f_cellOpts | f_height | f_horizontalPadding
| f_verticalPadding | f_alignHorizontal | f_alignVertical | f_wrapMode.

Definition field_eqb (f g : field) : bool :=
  match f, g with
  | f_colSpan, f_colSpan | f_rowSpan, f_rowSpan | f_cellOpts, f_cellOpts
  | f_height, f_height | f_horizontalPadding, f_horizontalPadding
  | f_verticalPadding, f_verticalPadding
  | f_alignHorizontal, f_alignHorizontal
  | f_alignVertical, f_alignVertical | f_wrapMode, f_wrapMode => true
  | _, _ => false
  end.

(** What a field can hold. *)
Inductive value : Type :=
| v_int (z : Z)
| v_opts (opts : list cell_Option)
| v_int_ptr (p : option Z)
| v_horizontal_ptr (p : option align_Horizontal)
| v_vertical_ptr (p : option align_Vertical)
| v_wrap_ptr (p : option wrap_Mode).

Definition target (s : setter) : field :=
  match s with
  | ColSpan _ => f_colSpan
  | RowSpan _ => f_rowSpan
  | Opts _ => f_cellOpts
  | Height _ => f_height
  | HorizontalPadding _ => f_horizontalPadding
  | VerticalPadding _ => f_verticalPadding
  | AlignHorizontal _ => f_alignHorizontal
  | AlignVertical _ => f_alignVertical
  | WrapAtWords => f_wrapMode
  end.

Definition stored (s : setter) : value :=
  match s with
  | ColSpan cols => v_int cols
  | RowSpan rows => v_int rows
  | Opts opts => v_opts opts
  | Height cells => v_int_ptr (Some cells)
  | HorizontalPadding cells => v_int_ptr (Some cells)
  | VerticalPadding cells => v_int_ptr (Some cells)
  | AlignHorizontal a => v_horizontal_ptr (Some a)
  | AlignVertical v => v_vertical_ptr (Some v)
  | WrapAtWords => v_wrap_ptr (Some wrap_AtWords)
  end.

(** Reading a field of the options record. *)
Definition read_hierarchical (f : field) (h : hierarchicalOptions)
  : option value :=
  match f with
  | f_colSpan | f_rowSpan => None
  | f_cellOpts => Some (v_opts (cellOpts h))
  | f_height => Some (v_int_ptr (height h))
  | f_horizontalPadding => Some (v_int_ptr (horizontalPadding h))
  | f_verticalPadding => Some (v_int_ptr (verticalPadding h))
  | f_alignHorizontal => Some (v_horizontal_ptr (alignHorizontal h))
  | f_alignVertical => Some (v_vertical_ptr (alignVertical h))
  | f_wrapMode => Some (v_wrap_ptr (wrapMode h))
  end.

(** Reading a field of a cell; [None] when the field lives behind a nil
    [hierarchical]. *)
Definition read (f : field) (c : Cell) : option value :=
  match f with
  | f_colSpan => Some (v_int (colSpan c))
  | f_rowSpan => Some (v_int (rowSpan c))
  | _ =>
      match hierarchical c with
      | None => None
      | Some h => read_hierarchical f h
      end
  end.

(** The value of a field in a cell fresh from the constructor. *)
Definition default (f : field) : value :=
  match f with
  | f_colSpan | f_rowSpan => v_int 1
  | f_cellOpts => v_opts []
  | f_height | f_horizontalPadding | f_verticalPadding => v_int_ptr None
  | f_alignHorizontal => v_horizontal_ptr None
  | f_alignVertical => v_vertical_ptr None
  | f_wrapMode => v_wrap_ptr None
  end.

(** The last setter of a list that writes field [f], if any. *)
Definition last_writer (f : field) (ss : list setter) : option setter :=
  find (fun s => field_eqb (target s) f) (rev ss).

(** The setters that write through the pointer [c.hierarchical]. *)
Definition dereferences (s : setter) : bool :=
  match target s with
  | f_colSpan | f_rowSpan => false
  | _ => true
  end.

(** [String] implements fmt.Stringer: the renderings of the fragments are
    written to a buffer in order and framed as ["| %v "].  The method
    [Data.String] belongs to another file of the package and is taken as
    [render]. *)
Definition Cell_String (render : Data -> string) (c : Cell) : string :=
  let b := fold_left (fun b d => (b ++ render d)%string) (data c) EmptyString in
  ("| " ++ b ++ " ")%string.

End CellModel.

(** An instantiation of the collaborators on which the model can be run:
    text fragments are their strings, the enumerations are numbered. *)
Definition sample_collaborators : Collaborators :=
  {| Data := string;
     NewData := fun text => text;
     cell_Option := nat;
     align_Horizontal := nat;
     align_Vertical := nat;
     wrap_Mode := nat;
     wrap_AtWords := 2%nat |}.

End table.

(* ================================================================== *)
(** ** Ranges used in the statements *)

(** Coordinates and amounts inside the range in which [numbers.MinMaxInts]
    searches: sums and differences of a few of them stay inside [int]. *)
Definition modest (z : Z) : Prop :=
  - numbers.MaxInt32 <= z <= numbers.MaxInt32.

Definition modest_rect (r : Rectangle) : Prop :=
  modest (X (Min r)) /\ modest (Y (Min r)) /\
  modest (X (Max r)) /\ modest (Y (Max r)).

(* ================================================================== *)
(** * Arithmetic of [int] *)

Section IntFacts.

Lemma is_int_bounds (z : Z) :
  is_int z <-> -9223372036854775808 <= z <= 9223372036854775807.
Proof. unfold is_int, intMin, intMax. simpl. lia. Qed.

Lemma wrap_eq (z : Z) :
  wrap z = (z + 9223372036854775808) mod 18446744073709551616
           - 9223372036854775808.
Proof. reflexivity. Qed.

(** No reduction happens on a result that fits. *)
Lemma wrap_small (z : Z) : is_int z -> wrap z = z.
Proof.
  rewrite is_int_bounds, wrap_eq. intros Hz.
  rewrite Z.mod_small by lia. lia.
Qed.

(** Every result is an [int]. *)
Lemma wrap_is_int (z : Z) : is_int (wrap z).
Proof.
  rewrite is_int_bounds, wrap_eq.
  pose proof (Z.mod_pos_bound (z + 9223372036854775808)
                              18446744073709551616).
  lia.
Qed.

(** A percentage of a non-negative quantity, when the product fits. *)
Lemma percent_exact (d p : Z) :
  0 <= d -> 0 <= p <= 100 -> d * p <= intMax ->
  quo (mul d p) 100 = d * p / 100 /\ 0 <= d * p / 100 <= d.
Proof.
  intros Hd Hp Hfit.
  assert (Hprod : 0 <= d * p) by nia.
  assert (Hq : 0 <= d * p / 100 <= d).
  { split.
    - apply Z.div_pos; lia.
    - apply Z.div_le_upper_bound; nia. }
  split; [|exact Hq].
  unfold quo, mul.
  assert (Hi : is_int (d * p)).
  { apply is_int_bounds. unfold intMax in Hfit. simpl in Hfit. lia. }
  rewrite (wrap_small _ Hi).
  rewrite Z.quot_div_nonneg by lia.
  apply wrap_small, is_int_bounds.
  apply (proj1 (is_int_bounds _)) in Hi.
  assert (d * p / 100 <= d * p) by (apply Z.div_le_upper_bound; lia).
  lia.
Qed.

End IntFacts.

(** Rewrites away every [wrap] whose argument [lia] can bound. *)
Ltac unwrap :=
  repeat match goal with
    | |- context [wrap ?z] =>
        rewrite (wrap_small z) by (apply is_int_bounds; lia)
    end.

(** Opens the typing and ordering hypotheses into bounds for [lia]. *)
Ltac int_bounds :=
  repeat match goal with
    | H : int_rect _ |- _ => destruct H as [[? ?] [? ?]]
    | H : int_point _ |- _ => destruct H as [? ?]
    | H : well_formed _ |- _ => destruct H as [? ?]
    | H : is_int _ |- _ => apply (proj1 (is_int_bounds _)) in H
    end.

(* ================================================================== *)
(** * Facts about [image] *)

Section ImageFacts.

Lemma Rect_ordered (x0 y0 x1 y1 : Z) :
  x0 <= x1 -> y0 <= y1 ->
  Rect x0 y0 x1 y1 = mkRectangle (mkPoint x0 y0) (mkPoint x1 y1).
Proof.
  intros Hx Hy. unfold Rect.
  destruct (Z.gtb_spec x0 x1); [lia|].
  destruct (Z.gtb_spec y0 y1); [lia|].
  reflexivity.
Qed.

Lemma Point_eqb_eq (p q : Point) : Point_eqb p q = true <-> p = q.
Proof.
  destruct p as [px py], q as [qx qy]. unfold Point_eqb. simpl.
  rewrite andb_true_iff, !Z.eqb_eq.
  split; [intros [-> ->]; reflexivity | intros H; inversion H; auto].
Qed.

Lemma Rectangle_eqb_eq (r s : Rectangle) : Rectangle_eqb r s = true <-> r = s.
Proof.
  destruct r as [rmin rmax], s as [smin smax]. unfold Rectangle_eqb. simpl.
  rewrite andb_true_iff, !Point_eqb_eq.
  split; [intros [-> ->]; reflexivity | intros H; inversion H; auto].
Qed.

End ImageFacts.

(* ================================================================== *)
(** * Width and height of a well-formed rectangle *)

Section Extent.

(** The difference of two ordered [int]s either fits or wraps to a
    negative value. *)
Lemma sub_ordered (a b : Z) :
  is_int a -> is_int b -> a <= b -> 0 <= sub b a -> sub b a = b - a.
Proof.
  unfold sub. rewrite !is_int_bounds, wrap_eq. intros Ha Hb Hab Hpos.
  Z.to_euclidean_division_equations. lia.
Qed.

Lemma Dx_exact (r : Rectangle) :
  int_rect r -> well_formed r -> 0 <= Dx r ->
  Dx r = X (Max r) - X (Min r).
Proof.
  intros [[Hx0 _] [Hx1 _]] [Hx _] Hpos. now apply sub_ordered.
Qed.

Lemma Dy_exact (r : Rectangle) :
  int_rect r -> well_formed r -> 0 <= Dy r ->
  Dy r = Y (Max r) - Y (Min r).
Proof.
  intros [[_ Hy0] [_ Hy1]] [_ Hy] Hpos. now apply sub_ordered.
Qed.

(** The extent of a rectangle written with ordered, in-range corners. *)
Lemma sub_fits (a b : Z) : is_int (b - a) -> sub b a = b - a.
Proof. apply wrap_small. Qed.

End Extent.

(* ================================================================== *)
(** * HSplit and VSplit *)

Section Split.

Lemma perc_guard (perc : Z) :
  (perc <? 0) || (perc >? 100) = true <-> perc < 0 \/ perc > 100.
Proof.
  rewrite orb_true_iff, Z.ltb_lt, Z.gtb_gt. reflexivity.
Qed.

Lemma perc_guard_false (perc : Z) :
  0 <= perc <= 100 -> (perc <? 0) || (perc >? 100) = false.
Proof.
  intros H. destruct ((perc <? 0) || (perc >? 100)) eqn:E; [|reflexivity].
  apply perc_guard in E. lia.
Qed.

Lemma HSplit_err (area : Rectangle) (heightPerc : Z) :
  snd (HSplit area heightPerc) <> None <-> heightPerc < 0 \/ heightPerc > 100.
Proof.
  rewrite <- perc_guard. unfold HSplit.
  destruct ((heightPerc <? 0) || (heightPerc >? 100)); simpl;
    split; congruence.
Qed.

Lemma VSplit_err (area : Rectangle) (widthPerc : Z) :
  snd (VSplit area widthPerc) <> None <-> widthPerc < 0 \/ widthPerc > 100.
Proof.
  rewrite <- perc_guard. unfold VSplit.
  destruct ((widthPerc <? 0) || (widthPerc >? 100)); simpl;
    split; congruence.
Qed.

(** The two halves of a successful horizontal split. *)
Lemma HSplit_halves (area : Rectangle) (heightPerc : Z) :
  int_rect area -> well_formed area ->
  0 <= heightPerc <= 100 ->
  0 <= Dy area -> Dy area * heightPerc <= intMax ->
  let h := Dy area * heightPerc / 100 in
  HSplit area heightPerc =
    (if h =? 0 then ZR
     else mkRectangle (Min area) (mkPoint (X (Max area)) (Y (Min area) + h)),
     if Dy area - h =? 0 then ZR
     else mkRectangle (mkPoint (X (Min area)) (Y (Min area) + h)) (Max area),
     None).
Proof.
  intros Hint Hwf Hp Hpos Hfit h.
  destruct (percent_exact _ _ Hpos Hp Hfit) as [Hq Hh]. fold h in Hq, Hh.
  pose proof (Dy_exact _ Hint Hwf Hpos) as Hd.
  assert (Hdi : is_int (Dy area)) by apply wrap_is_int.
  unfold HSplit. cbv zeta. rewrite (perc_guard_false _ Hp), Hq.
  clearbody h. clear Hq Hfit Hpos. rewrite Hd in *. clear Hd.
  destruct area as [[x0 y0] [x1 y1]]. simpl in *. int_bounds. simpl in *.
  assert (Ha : add y0 h = y0 + h).
  { apply wrap_small, is_int_bounds. lia. }
  rewrite Ha, !Rect_ordered by lia.
  unfold Dy. simpl.
  rewrite !sub_fits by (apply is_int_bounds; lia).
  replace (y0 + h - y0) with h by lia.
  replace (y1 - (y0 + h)) with (y1 - y0 - h) by lia.
  reflexivity.
Qed.

(** The two halves of a successful vertical split. *)
Lemma VSplit_halves (area : Rectangle) (widthPerc : Z) :
  int_rect area -> well_formed area ->
  0 <= widthPerc <= 100 ->
  0 <= Dx area -> Dx area * widthPerc <= intMax ->
  let w := Dx area * widthPerc / 100 in
  VSplit area widthPerc =
    (if w =? 0 then ZR
     else mkRectangle (Min area) (mkPoint (X (Min area) + w) (Y (Max area))),
     if Dx area - w =? 0 then ZR
     else mkRectangle (mkPoint (X (Min area) + w) (Y (Min area))) (Max area),
     None).
Proof.
  intros Hint Hwf Hp Hpos Hfit w.
  destruct (percent_exact _ _ Hpos Hp Hfit) as [Hq Hw]. fold w in Hq, Hw.
  pose proof (Dx_exact _ Hint Hwf Hpos) as Hd.
  assert (Hdi : is_int (Dx area)) by apply wrap_is_int.
  unfold VSplit. cbv zeta. rewrite (perc_guard_false _ Hp), Hq.
  clearbody w. clear Hq Hfit Hpos. rewrite Hd in *. clear Hd.
  destruct area as [[x0 y0] [x1 y1]]. simpl in *. int_bounds. simpl in *.
  assert (Ha : add x0 w = x0 + w).
  { apply wrap_small, is_int_bounds. lia. }
  rewrite Ha, !Rect_ordered by lia.
  unfold Dx. simpl.
  rewrite !sub_fits by (apply is_int_bounds; lia).
  replace (x0 + w - x0) with w by lia.
  replace (x1 - (x0 + w)) with (x1 - x0 - w) by lia.
  reflexivity.
Qed.

End Split.

Section SplitClaims.

Lemma Dy_corners (x0 y0 x1 y1 : Z) :
  is_int (y1 - y0) ->
  Dy (mkRectangle (mkPoint x0 y0) (mkPoint x1 y1)) = y1 - y0.
Proof. apply sub_fits. Qed.

Lemma Dx_corners (x0 y0 x1 y1 : Z) :
  is_int (x1 - x0) ->
  Dx (mkRectangle (mkPoint x0 y0) (mkPoint x1 y1)) = x1 - x0.
Proof. apply sub_fits. Qed.

Lemma HSplit_heights (area : Rectangle) (heightPerc : Z) :
  int_rect area -> well_formed area ->
  0 <= heightPerc <= 100 ->
  0 <= Dy area -> Dy area * heightPerc <= intMax ->
  exists top bottom,
    HSplit area heightPerc = (top, bottom, None) /\
    Dy top = Dy area * heightPerc / 100 /\
    Dy bottom = Dy area - Dy top /\
    Dy top + Dy bottom = Dy area /\
    (Dy area * heightPerc / 100 = 0 -> top = ZR) /\
    (Dy area - Dy area * heightPerc / 100 = 0 -> bottom = ZR).
Proof.
  intros Hint Hwf Hp Hpos Hfit.
  pose proof (HSplit_halves _ _ Hint Hwf Hp Hpos Hfit) as Heq.
  destruct (percent_exact _ _ Hpos Hp Hfit) as [_ Hh].
  assert (Hdi : is_int (Dy area)) by apply wrap_is_int.
  cbv zeta in Heq.
  set (h := Dy area * heightPerc / 100) in *. clearbody h.
  eexists _, _. split; [exact Heq|].
  apply (proj1 (is_int_bounds _)) in Hdi.
  assert (Htop :
    Dy (if h =? 0 then ZR
        else mkRectangle (Min area)
               (mkPoint (X (Max area)) (Y (Min area) + h))) = h).
  { destruct (Z.eqb_spec h 0) as [He|Hne]; [rewrite He; reflexivity|].
    destruct area as [[x0 y0] [x1 y1]]. simpl.
    rewrite Dy_corners by (apply is_int_bounds; lia). lia. }
  assert (Hbot :
    Dy (if Dy area - h =? 0 then ZR
        else mkRectangle (mkPoint (X (Min area)) (Y (Min area) + h))
               (Max area)) = Dy area - h).
  { destruct (Z.eqb_spec (Dy area - h) 0) as [He|Hne];
      [rewrite He; reflexivity|].
    rewrite (Dy_exact _ Hint Hwf Hpos) in *.
    destruct area as [[x0 y0] [x1 y1]]. simpl in *.
    rewrite Dy_corners by (apply is_int_bounds; lia). lia. }
  rewrite Htop, Hbot.
  repeat split; try lia.
  - intros ->. reflexivity.
  - intros ->. reflexivity.
Qed.

Lemma VSplit_widths (area : Rectangle) (widthPerc : Z) :
  int_rect area -> well_formed area ->
  0 <= widthPerc <= 100 ->
  0 <= Dx area -> Dx area * widthPerc <= intMax ->
  exists left right,
    VSplit area widthPerc = (left, right, None) /\
    Dx left = Dx area * widthPerc / 100 /\
    Dx right = Dx area - Dx left /\
    Dx left + Dx right = Dx area /\
    (Dx area * widthPerc / 100 = 0 -> left = ZR) /\
    (Dx area - Dx area * widthPerc / 100 = 0 -> right = ZR).
Proof.
  intros Hint Hwf Hp Hpos Hfit.
  pose proof (VSplit_halves _ _ Hint Hwf Hp Hpos Hfit) as Heq.
  destruct (percent_exact _ _ Hpos Hp Hfit) as [_ Hw].
  assert (Hdi : is_int (Dx area)) by apply wrap_is_int.
  cbv zeta in Heq.
  set (w := Dx area * widthPerc / 100) in *. clearbody w.
  eexists _, _. split; [exact Heq|].
  apply (proj1 (is_int_bounds _)) in Hdi.
  assert (Hleft :
    Dx (if w =? 0 then ZR
        else mkRectangle (Min area)
               (mkPoint (X (Min area) + w) (Y (Max area)))) = w).
  { destruct (Z.eqb_spec w 0) as [He|Hne]; [rewrite He; reflexivity|].
    destruct area as [[x0 y0] [x1 y1]]. simpl.
    rewrite Dx_corners by (apply is_int_bounds; lia). lia. }
  assert (Hright :
    Dx (if Dx area - w =? 0 then ZR
        else mkRectangle (mkPoint (X (Min area) + w) (Y (Min area)))
               (Max area)) = Dx area - w).
  { destruct (Z.eqb_spec (Dx area - w) 0) as [He|Hne];
      [rewrite He; reflexivity|].
    rewrite (Dx_exact _ Hint Hwf Hpos) in *.
    destruct area as [[x0 y0] [x1 y1]]. simpl in *.
    rewrite Dx_corners by (apply is_int_bounds; lia). lia. }
  rewrite Hleft, Hright.
  repeat split; try lia.
  - intros ->. reflexivity.
  - intros ->. reflexivity.
Qed.

End SplitClaims.

(* ================================================================== *)
(** * Shrink and ShrinkPercent: the argument checks *)

Section ShrinkChecks.

Lemma first_negative_none (t r b l : Z) :
  first_negative [("topCells"%string, t); ("rightCells"%string, r);
                  ("bottomCells"%string, b); ("leftCells"%string, l)] = None
  <-> 0 <= t /\ 0 <= r /\ 0 <= b /\ 0 <= l.
Proof.
  simpl.
  destruct (Z.ltb_spec t 0); [split; [discriminate | lia]|].
  destruct (Z.ltb_spec r 0); [split; [discriminate | lia]|].
  destruct (Z.ltb_spec b 0); [split; [discriminate | lia]|].
  destruct (Z.ltb_spec l 0); [split; [discriminate | lia]|].
  split; [lia | reflexivity].
Qed.

Lemma first_out_of_range_none (t r b l : Z) :
  first_out_of_range [("topPerc"%string, t); ("rightPerc"%string, r);
                      ("bottomPerc"%string, b); ("leftPerc"%string, l)] = None
  <-> 0 <= t <= 100 /\ 0 <= r <= 100 /\ 0 <= b <= 100 /\ 0 <= l <= 100.
Proof.
  simpl.
  destruct ((t <? 0) || (t >? 100)) eqn:Et;
    [apply perc_guard in Et; split; [discriminate | lia]|].
  destruct ((r <? 0) || (r >? 100)) eqn:Er;
    [apply perc_guard in Er; split; [discriminate | lia]|].
  destruct ((b <? 0) || (b >? 100)) eqn:Eb;
    [apply perc_guard in Eb; split; [discriminate | lia]|].
  destruct ((l <? 0) || (l >? 100)) eqn:El;
    [apply perc_guard in El; split; [discriminate | lia]|].
  apply orb_false_iff in Et, Er, Eb, El.
  rewrite Z.ltb_ge, Z.gtb_ltb, Z.ltb_ge in Et, Er, Eb, El.
  split; [lia | reflexivity].
Qed.

(** [Shrink] fails exactly on a negative amount, and then with [ZR]. *)
Lemma Shrink_err (area : Rectangle) (t r b l : Z) :
  snd (Shrink area t r b l) <> None <-> t < 0 \/ r < 0 \/ b < 0 \/ l < 0.
Proof.
  unfold Shrink.
  destruct (first_negative _) as [e|] eqn:E.
  - simpl. split; [intros _ | congruence].
    destruct (Z.ltb_spec t 0); [lia|]. destruct (Z.ltb_spec r 0); [lia|].
    destruct (Z.ltb_spec b 0); [lia|]. destruct (Z.ltb_spec l 0); [lia|].
    assert (Hn : first_negative
                   [("topCells"%string, t); ("rightCells"%string, r);
                    ("bottomCells"%string, b); ("leftCells"%string, l)] = None)
      by (apply first_negative_none; lia).
    congruence.
  - apply first_negative_none in E. cbv zeta.
    destruct (_ || _); simpl; (split; [congruence | lia]).
Qed.

Lemma Shrink_err_ZR (area : Rectangle) (t r b l : Z) :
  snd (Shrink area t r b l) <> None -> fst (Shrink area t r b l) = ZR.
Proof.
  unfold Shrink. destruct (first_negative _) as [e|]; [reflexivity|].
  cbv zeta. destruct (_ || _); simpl; congruence.
Qed.

Lemma ShrinkPercent_err_ZR (area : Rectangle) (t r b l : Z) :
  snd (ShrinkPercent area t r b l) <> None ->
  fst (ShrinkPercent area t r b l) = ZR.
Proof.
  unfold ShrinkPercent. destruct (first_out_of_range _) as [e|];
    [reflexivity|].
  cbv zeta. apply Shrink_err_ZR.
Qed.

Lemma ShrinkPercent_out_of_range (area : Rectangle) (t r b l : Z) :
  ~ (0 <= t <= 100 /\ 0 <= r <= 100 /\ 0 <= b <= 100 /\ 0 <= l <= 100) ->
  exists e, ShrinkPercent area t r b l = (ZR, Some e).
Proof.
  intros Hout. unfold ShrinkPercent.
  destruct (first_out_of_range _) as [e|] eqn:E; [now exists e|].
  apply first_out_of_range_none in E. contradiction.
Qed.

End ShrinkChecks.

(** Closes a goal about concrete inputs by evaluation. *)
Ltac by_eval :=
  vm_compute; repeat split; try reflexivity; try discriminate;
  intros; discriminate.

(* ================================================================== *)
(** * Errors come with the zero rectangle *)

(** C10: whenever [HSplit], [VSplit], [Shrink] or [ShrinkPercent] returns an
    error, every rectangle returned with it is the zero rectangle: an
    out-of-range percentage gives [(ZR, ZR, err)] from the two splits, a
    negative amount gives [(ZR, err)] from [Shrink], an out-of-range
    percentage gives [(ZR, err)] from [ShrinkPercent]; and no call of the
    four returns an error next to any other rectangle. *)
Theorem error_with_zero_rectangle :
  (forall area p, p < 0 \/ p > 100 ->
     exists e, HSplit area p = (ZR, ZR, Some e)) /\
  (forall area p, p < 0 \/ p > 100 ->
     exists e, VSplit area p = (ZR, ZR, Some e)) /\
  (forall area t r b l, t < 0 \/ r < 0 \/ b < 0 \/ l < 0 ->
     exists e, Shrink area t r b l = (ZR, Some e)) /\
  (forall area t r b l,
     (t < 0 \/ t > 100) \/ (r < 0 \/ r > 100) \/
     (b < 0 \/ b > 100) \/ (l < 0 \/ l > 100) ->
     exists e, ShrinkPercent area t r b l = (ZR, Some e)) /\
  (forall area p, snd (HSplit area p) <> None ->
     fst (HSplit area p) = (ZR, ZR)) /\
  (forall area p, snd (VSplit area p) <> None ->
     fst (VSplit area p) = (ZR, ZR)) /\
  (forall area t r b l, snd (Shrink area t r b l) <> None ->
     fst (Shrink area t r b l) = ZR) /\
  (forall area t r b l, snd (ShrinkPercent area t r b l) <> None ->
     fst (ShrinkPercent area t r b l) = ZR).
Proof.
  repeat apply conj.
  - intros area p Hp. apply perc_guard in Hp. unfold HSplit.
    cbv zeta. rewrite Hp. eexists. reflexivity.
  - intros area p Hp. apply perc_guard in Hp. unfold VSplit.
    cbv zeta. rewrite Hp. eexists. reflexivity.
  - intros area t r b l Hneg. apply (Shrink_err area) in Hneg.
    pose proof (Shrink_err_ZR area t r b l Hneg) as Hz.
    destruct (Shrink area t r b l) as [res [e|]]; simpl in *;
      [subst res; now exists e | congruence].
  - intros area t r b l Hout. apply ShrinkPercent_out_of_range. lia.
  - intros area p. unfold HSplit. cbv zeta.
    destruct (_ || _); simpl; congruence.
  - intros area p. unfold VSplit. cbv zeta.
    destruct (_ || _); simpl; congruence.
  - apply Shrink_err_ZR.
  - apply ShrinkPercent_err_ZR.
Qed.

Lemma error_with_zero_rectangle_witness :
  (exists e, HSplit (Rect 0 0 10 10) 101 = (ZR, ZR, Some e)) /\
  (exists e, VSplit (Rect 0 0 10 10) (-1) = (ZR, ZR, Some e)) /\
  (exists e, Shrink (Rect 0 0 10 10) 1 2 (-3) 4 = (ZR, Some e)) /\
  (exists e, ShrinkPercent (Rect 0 0 10 10) 10 20 30 101 = (ZR, Some e)) /\
  fst (HSplit (Rect 0 0 10 10) 101) = (ZR, ZR) /\
  fst (VSplit (Rect 0 0 10 10) (-1)) = (ZR, ZR) /\
  fst (Shrink (Rect 0 0 10 10) 1 2 (-3) 4) = ZR /\
  fst (ShrinkPercent (Rect 0 0 10 10) 10 20 30 101) = ZR.
Proof.
  destruct error_with_zero_rectangle
    as (H1 & H2 & H3 & H4 & H5 & H6 & H7 & H8).
  repeat apply conj.
  - apply H1. right. reflexivity.
  - apply H2. left. reflexivity.
  - apply H3. right. right. left. reflexivity.
  - apply H4. right. right. right. right. reflexivity.
  - apply H5. vm_compute. discriminate.
  - apply H6. vm_compute. discriminate.
  - apply H7. vm_compute. discriminate.
  - apply H8. vm_compute. discriminate.
Defined.

(* ================================================================== *)
(** * Splitting at a percentage *)

Section Fits.

Lemma Dy_fits (r : Rectangle) :
  int_rect r -> well_formed r -> height_fits r ->
  Dy r = Y (Max r) - Y (Min r) /\ 0 <= Dy r.
Proof.
  intros Hint Hwf Hfit. unfold height_fits, intMax in Hfit. simpl in Hfit.
  assert (Heq : Dy r = Y (Max r) - Y (Min r)).
  { int_bounds. apply sub_fits, is_int_bounds. lia. }
  split; [exact Heq|]. rewrite Heq. int_bounds. lia.
Qed.

Lemma Dx_fits (r : Rectangle) :
  int_rect r -> well_formed r -> width_fits r ->
  Dx r = X (Max r) - X (Min r) /\ 0 <= Dx r.
Proof.
  intros Hint Hwf Hfit. unfold width_fits, intMax in Hfit. simpl in Hfit.
  assert (Heq : Dx r = X (Max r) - X (Min r)).
  { int_bounds. apply sub_fits, is_int_bounds. lia. }
  split; [exact Heq|]. rewrite Heq. int_bounds. lia.
Qed.

End Fits.

(** C1, as amended: for every rectangle with min <= max componentwise and
    every percentage, [HSplit] returns an error exactly when the percentage
    is below 0 or above 100.  On success, and provided the height of the
    area and its product with the percentage do not overflow [int], the top
    half has height [floor (height * heightPerc / 100)], the bottom half the
    rest of the height, and a half of computed height 0 is the zero
    rectangle.  [VSplit] does the same along the width. *)
Theorem split_at_percentage (area : Rectangle) (perc : Z) :
  int_rect area -> well_formed area ->
  ((snd (HSplit area perc) <> None <-> perc < 0 \/ perc > 100) /\
   (0 <= perc <= 100 -> height_fits area -> Dy area * perc <= intMax ->
    exists top bottom,
      HSplit area perc = (top, bottom, None) /\
      Dy top = Dy area * perc / 100 /\
      Dy bottom = Dy area - Dy top /\
      Dy top + Dy bottom = Dy area /\
      (Dy area * perc / 100 = 0 -> top = ZR) /\
      (Dy area - Dy area * perc / 100 = 0 -> bottom = ZR)))
  /\
  ((snd (VSplit area perc) <> None <-> perc < 0 \/ perc > 100) /\
   (0 <= perc <= 100 -> width_fits area -> Dx area * perc <= intMax ->
    exists left right,
      VSplit area perc = (left, right, None) /\
      Dx left = Dx area * perc / 100 /\
      Dx right = Dx area - Dx left /\
      Dx left + Dx right = Dx area /\
      (Dx area * perc / 100 = 0 -> left = ZR) /\
      (Dx area - Dx area * perc / 100 = 0 -> right = ZR))).
Proof.
  intros Hint Hwf. split; split.
  - apply HSplit_err.
  - intros Hp Hh Hfit.
    apply HSplit_heights; auto. now apply Dy_fits.
  - apply VSplit_err.
  - intros Hp Hw Hfit.
    apply VSplit_widths; auto. now apply Dx_fits.
Qed.

Lemma split_at_percentage_witness :
  let area := mkRectangle (mkPoint 2 3) (mkPoint 12 23) in
  int_rect area /\ well_formed area /\ 0 <= 30 <= 100 /\
  (height_fits area /\ Dy area * 30 <= intMax) /\
  (width_fits area /\ Dx area * 30 <= intMax) /\
  (exists top bottom,
     HSplit area 30 = (top, bottom, None) /\ Dy top = 6 /\ Dy bottom = 14) /\
  (exists left right,
     VSplit area 30 = (left, right, None) /\ Dx left = 3 /\ Dx right = 7).
Proof.
  intros area.
  assert (Hint : int_rect area) by by_eval.
  assert (Hwf : well_formed area) by by_eval.
  assert (Hp : 0 <= 30 <= 100) by lia.
  assert (Hh : height_fits area /\ Dy area * 30 <= intMax) by by_eval.
  assert (Hw : width_fits area /\ Dx area * 30 <= intMax) by by_eval.
  destruct (split_at_percentage area 30 Hint Hwf) as [[_ HH] [_ HV]].
  destruct (HH Hp (proj1 Hh) (proj2 Hh))
    as (top & bottom & Heq & Htop & Hbot & _).
  destruct (HV Hp (proj1 Hw) (proj2 Hw))
    as (left & right & Heq' & Hleft & Hright & _).
  refine (conj Hint (conj Hwf (conj Hp (conj Hh (conj Hw (conj _ _)))))).
  - exists top, bottom. rewrite Hbot, Htop. now repeat split.
  - exists left, right. rewrite Hright, Hleft. now repeat split.
Defined.

(** C1 as stated fails on an area whose height times the percentage
    overflows: the area from (0,0) to (1, 2^62) has min <= max, 50 is a
    legal percentage, and neither is the top half's height
    [floor (height * 50 / 100)] nor do the two heights add up to the
    height of the area. *)
Lemma split_at_percentage_counterexample :
  let area := mkRectangle (mkPoint 0 0) (mkPoint 1 (2 ^ 62)) in
  int_rect area /\ well_formed area /\ 0 <= 50 <= 100 /\
  exists top bottom,
    HSplit area 50 = (top, bottom, None) /\
    Dy top <> Dy area * 50 / 100 /\
    Dy top + Dy bottom <> Dy area.
Proof.
  intros area.
  split; [by_eval|]. split; [by_eval|]. split; [lia|].
  eexists _, _. split; [vm_compute; reflexivity|].
  split; vm_compute; discriminate.
Qed.

(* ================================================================== *)
(** * Size and FromSize *)

(** C8, as amended: for every rectangle with min <= max componentwise whose
    width and height do not overflow [int], [FromSize (Size area)] succeeds
    with the rectangle from (0,0) to (width, height), of the same width
    and height as the area.  [FromSize] fails exactly on a negative
    component, and the zero size gives the zero rectangle. *)
Theorem FromSize_Size :
  (forall area, int_rect area -> well_formed area ->
     width_fits area -> height_fits area ->
     FromSize (Size area)
       = (mkRectangle (mkPoint 0 0) (mkPoint (Dx area) (Dy area)), None) /\
     Dx (fst (FromSize (Size area))) = Dx area /\
     Dy (fst (FromSize (Size area))) = Dy area) /\
  (forall size, snd (FromSize size) <> None <-> X size < 0 \/ Y size < 0) /\
  FromSize ZP = (ZR, None).
Proof.
  repeat apply conj.
  - intros area Hint Hwf Hw Hh.
    destruct (Dx_fits _ Hint Hwf Hw) as [_ Hx].
    destruct (Dy_fits _ Hint Hwf Hh) as [_ Hy].
    assert (Heq : FromSize (Size area)
      = (mkRectangle (mkPoint 0 0) (mkPoint (Dx area) (Dy area)), None)).
    { unfold FromSize, Size. simpl.
      destruct (Z.ltb_spec (Dx area) 0); [lia|].
      destruct (Z.ltb_spec (Dy area) 0); [lia|].
      simpl. now rewrite Rect_ordered. }
    rewrite Heq. simpl. split; [reflexivity|].
    pose proof (wrap_is_int (X (Max area) - X (Min area))) as Hix.
    pose proof (wrap_is_int (Y (Max area) - Y (Min area))) as Hiy.
    fold (sub (X (Max area)) (X (Min area))) in Hix.
    fold (sub (Y (Max area)) (Y (Min area))) in Hiy.
    fold (Dx area) in Hix. fold (Dy area) in Hiy.
    rewrite Dx_corners, Dy_corners by (now rewrite Z.sub_0_r).
    lia.
  - intros size. unfold FromSize.
    destruct (Z.ltb_spec (X size) 0); simpl;
      [split; [lia | congruence]|].
    destruct (Z.ltb_spec (Y size) 0); simpl;
      (split; [try lia; congruence | try lia; congruence]).
  - reflexivity.
Qed.

Lemma FromSize_Size_witness :
  let area := mkRectangle (mkPoint (-3) 4) (mkPoint 7 9) in
  int_rect area /\ well_formed area /\ width_fits area /\ height_fits area /\
  FromSize (Size area) = (mkRectangle (mkPoint 0 0) (mkPoint 10 5), None) /\
  snd (FromSize (mkPoint (-1) 5)) <> None.
Proof.
  intros area.
  assert (Hint : int_rect area) by by_eval.
  assert (Hwf : well_formed area) by by_eval.
  assert (Hw : width_fits area) by by_eval.
  assert (Hh : height_fits area) by by_eval.
  destruct FromSize_Size as (Hround & Herr & _).
  destruct (Hround area Hint Hwf Hw Hh) as [Heq _].
  refine (conj Hint (conj Hwf (conj Hw (conj Hh (conj Heq _))))).
  apply Herr. left. reflexivity.
Defined.

(** C8 as stated fails on a rectangle whose width overflows: the area from
    (intMin, 0) to (intMax, 1) has min <= max, its [Size] has a negative
    first component and [FromSize] rejects it. *)
Lemma FromSize_Size_counterexample :
  let area := mkRectangle (mkPoint intMin 0) (mkPoint intMax 1) in
  int_rect area /\ well_formed area /\ snd (FromSize (Size area)) <> None.
Proof.
  intros area.
  split; [by_eval|]. split; [by_eval|]. vm_compute. discriminate.
Qed.

(* ================================================================== *)
(** * ExcludeBorder *)

Section Border.

Lemma Abs_nonneg (x : Z) : 0 <= x -> numbers.Abs x = x.
Proof.
  intros Hx. unfold numbers.Abs. destruct (Z.ltb_spec x 0); [lia | reflexivity].
Qed.

Lemma ExcludeBorder_small (area : Rectangle) :
  Dx area < 2 \/ Dy area < 2 -> ExcludeBorder area = ZR.
Proof.
  intros Hsmall. unfold ExcludeBorder. cbv zeta.
  destruct (Z.ltb_spec (Dx area) 2); [reflexivity|].
  destruct (Z.ltb_spec (Dy area) 2); [reflexivity|]. lia.
Qed.

Lemma ExcludeBorder_inner (area : Rectangle) :
  int_rect area -> well_formed area ->
  -1 <= X (Min area) -> -1 <= Y (Min area) ->
  2 <= Dx area -> 2 <= Dy area ->
  ExcludeBorder area =
    mkRectangle (mkPoint (X (Min area) + 1) (Y (Min area) + 1))
                (mkPoint (X (Max area) - 1) (Y (Max area) - 1)).
Proof.
  intros Hint Hwf Hx0 Hy0 Hw Hh.
  assert (Hdx : Dx area = X (Max area) - X (Min area))
    by (apply Dx_exact; auto; lia).
  assert (Hdy : Dy area = Y (Max area) - Y (Min area))
    by (apply Dy_exact; auto; lia).
  unfold ExcludeBorder. cbv zeta.
  destruct (Z.ltb_spec (Dx area) 2); [lia|].
  destruct (Z.ltb_spec (Dy area) 2); [lia|]. simpl.
  rewrite Hdx in Hw. rewrite Hdy in Hh.
  destruct area as [[x0 y0] [x1 y1]]. simpl in *. int_bounds. simpl in *.
  unfold add, sub. unwrap.
  rewrite !Abs_nonneg by lia.
  apply Rect_ordered; lia.
Qed.

End Border.

(** C3, as amended: for every rectangle with min <= max componentwise
    whose width and height do not overflow [int], of width and height at
    least 2 and with min.x >= -1 and min.y >= -1 (so for every such
    rectangle of non-negative coordinates), [ExcludeBorder] returns the
    rectangle from (min.x+1, min.y+1) to (max.x-1, max.y-1).  If a
    dimension, as [Dx] and [Dy] compute it, is below 2 the result is the
    zero rectangle; a width or height that overflows is such a dimension.
    The function has no error result.  A 1x5 and a 5x1 rectangle give the
    zero rectangle and (0,0)-(4,4) gives (1,1)-(3,3). *)
Theorem ExcludeBorder_one_cell_each_side :
  (forall area, int_rect area -> well_formed area ->
     width_fits area -> height_fits area ->
     -1 <= X (Min area) -> -1 <= Y (Min area) ->
     2 <= X (Max area) - X (Min area) -> 2 <= Y (Max area) - Y (Min area) ->
     ExcludeBorder area =
       mkRectangle (mkPoint (X (Min area) + 1) (Y (Min area) + 1))
                   (mkPoint (X (Max area) - 1) (Y (Max area) - 1))) /\
  (forall area, Dx area < 2 \/ Dy area < 2 -> ExcludeBorder area = ZR) /\
  (forall area, int_rect area -> well_formed area ->
     ~ width_fits area \/ ~ height_fits area -> ExcludeBorder area = ZR) /\
  ExcludeBorder (Rect 0 0 1 5) = ZR /\
  ExcludeBorder (Rect 0 0 5 1) = ZR /\
  ExcludeBorder (Rect 0 0 4 4) = Rect 1 1 3 3.
Proof.
  split.
  { intros area Hint Hwf Hw Hh Hx0 Hy0 Hdx Hdy.
    destruct (Dx_fits _ Hint Hwf Hw) as [Ex _].
    destruct (Dy_fits _ Hint Hwf Hh) as [Ey _].
    apply ExcludeBorder_inner; auto; lia. }
  split; [exact ExcludeBorder_small|].
  split; [|repeat split].
  intros area Hint Hwf Hover. apply ExcludeBorder_small.
  unfold width_fits, height_fits, intMax in Hover. simpl in Hover.
  destruct area as [[x0 y0] [x1 y1]]. unfold Dx, Dy, sub. simpl in *.
  int_bounds. simpl in *. rewrite !wrap_eq.
  Z.to_euclidean_division_equations. lia.
Qed.

Lemma ExcludeBorder_one_cell_each_side_witness :
  let area := mkRectangle (mkPoint (-1) 0) (mkPoint 6 9) in
  int_rect area /\ well_formed area /\
  (width_fits area /\ height_fits area) /\
  (-1 <= X (Min area) /\ -1 <= Y (Min area)) /\
  (2 <= X (Max area) - X (Min area) /\ 2 <= Y (Max area) - Y (Min area)) /\
  ExcludeBorder area = mkRectangle (mkPoint 0 1) (mkPoint 5 8) /\
  ExcludeBorder (mkRectangle (mkPoint 3 3) (mkPoint 4 9)) = ZR.
Proof.
  intros area.
  assert (Hint : int_rect area) by by_eval.
  assert (Hwf : well_formed area) by by_eval.
  assert (Hfit : width_fits area /\ height_fits area) by by_eval.
  assert (Hmin : -1 <= X (Min area) /\ -1 <= Y (Min area)) by by_eval.
  assert (Hdim : 2 <= X (Max area) - X (Min area) /\
                 2 <= Y (Max area) - Y (Min area)) by by_eval.
  destruct ExcludeBorder_one_cell_each_side as (Hinner & Hsmall & _).
  refine (conj Hint (conj Hwf (conj Hfit (conj Hmin (conj Hdim
           (conj _ _)))))).
  - exact (Hinner area Hint Hwf (proj1 Hfit) (proj2 Hfit)
                  (proj1 Hmin) (proj2 Hmin) (proj1 Hdim) (proj2 Hdim)).
  - apply Hsmall. left. reflexivity.
Defined.

(** C3 as stated fails for negative coordinates and for a width that
    overflows.  The area from (-5,-5) to (0,0) has width and height 5, and
    the result is (1,1)-(4,4), not (-4,-4)-(-1,-1).  The area from (-1,0)
    to (intMax,5) has min <= max and min.x = -1, its width 2^63 wraps to
    intMin, and the result is the zero rectangle. *)
Lemma ExcludeBorder_counterexample :
  (let area := mkRectangle (mkPoint (-5) (-5)) (mkPoint 0 0) in
   int_rect area /\ well_formed area /\ 2 <= Dx area /\ 2 <= Dy area /\
   ExcludeBorder area = mkRectangle (mkPoint 1 1) (mkPoint 4 4) /\
   ExcludeBorder area <>
     mkRectangle (mkPoint (X (Min area) + 1) (Y (Min area) + 1))
                 (mkPoint (X (Max area) - 1) (Y (Max area) - 1))) /\
  (let area := mkRectangle (mkPoint (-1) 0) (mkPoint intMax 5) in
   int_rect area /\ well_formed area /\
   2 <= X (Max area) - X (Min area) /\ 2 <= Y (Max area) - Y (Min area) /\
   -1 <= X (Min area) /\ -1 <= Y (Min area) /\
   Dx area = intMin /\
   ExcludeBorder area = ZR /\
   ExcludeBorder area <>
     mkRectangle (mkPoint (X (Min area) + 1) (Y (Min area) + 1))
                 (mkPoint (X (Max area) - 1) (Y (Max area) - 1))).
Proof.
  split; intros area.
  - split; [by_eval|]. split; [by_eval|].
    repeat split; vm_compute; discriminate.
  - split; [by_eval|]. split; [by_eval|].
    repeat split; vm_compute; discriminate.
Qed.

(* ================================================================== *)
(** * The greatest common factor *)

Section CommonFactor.

(** Two rounds of the algorithm halve the divisor. *)
Lemma rem_rem_half (a b : Z) :
  b <> 0 -> Z.rem a b <> 0 ->
  2 * Z.abs (Z.rem b (Z.rem a b)) < Z.abs b.
Proof.
  intros Hb Hr.
  pose proof (Z.rem_bound_abs a b Hb) as Hlt.
  rewrite <- (Z.rem_abs b (Z.rem a b) Hr).
  set (x := Z.abs b) in *. set (y := Z.abs (Z.rem a b)) in *.
  assert (Hy : 0 < y) by (unfold y; lia).
  rewrite Z.rem_mod_nonneg by lia.
  pose proof (Z.div_mod x y) as Hdm.
  pose proof (Z.mod_pos_bound x y Hy) as Hm.
  assert (Hq : 1 <= x / y) by (apply Z.div_le_lower_bound; lia).
  nia.
Qed.

Lemma gcd_round (a b : Z) : Z.gcd a b = Z.gcd b (Z.rem a b).
Proof.
  rewrite (Z.quot_rem' a b) at 1.
  rewrite Z.gcd_comm, Z.add_comm, (Z.mul_comm b).
  apply Z.gcd_add_mult_diag_r.
Qed.

Lemma gcd_last_round (a b : Z) : Z.rem a b = 0 -> Z.gcd a b = Z.abs b.
Proof.
  intros Hr. rewrite gcd_round, Hr. apply Z.gcd_0_r.
Qed.

(** With a divisor below [2^k], [2k+1] rounds end the loop, and the result
    is the greatest common divisor up to its sign. *)
Lemma gcf_rounds_enough (k : nat) :
  forall (fuel : nat) (a b : Z),
    b <> 0 -> Z.abs b < 2 ^ Z.of_nat k -> (2 * k + 1 <= fuel)%nat ->
    Z.abs (numbers.gcf_rounds fuel a b) = Z.gcd a b.
Proof.
  induction k as [|k IH]; intros fuel a b Hb Hk Hfuel.
  - simpl in Hk. lia.
  - destruct fuel as [|[|fuel]]; try lia.
    simpl numbers.gcf_rounds.
    destruct (Z.eqb_spec (Z.rem a b) 0) as [Hr|Hr].
    { symmetry. now apply gcd_last_round. }
    destruct (Z.eqb_spec (Z.rem b (Z.rem a b)) 0) as [Hr2|Hr2].
    { rewrite gcd_round. symmetry. now apply gcd_last_round. }
    rewrite IH; [| exact Hr2 | | lia].
    + now rewrite (gcd_round a b), (gcd_round b (Z.rem a b)).
    + pose proof (rem_rem_half a b Hb Hr) as Hhalf.
      rewrite Nat2Z.inj_succ, Z.pow_succ_r in Hk by lia. lia.
Qed.

(** On two [int]s the 130 rounds of [findGCF] are enough. *)
Lemma gcf_rounds_gcd (a b : Z) :
  b <> 0 -> Z.abs b <= 2 ^ 63 ->
  Z.abs (numbers.gcf_rounds 130 a b) = Z.gcd a b.
Proof.
  intros Hb Hk. apply (gcf_rounds_enough 64); [exact Hb | | lia].
  change (2 ^ Z.of_nat 64) with 18446744073709551616.
  change (2 ^ 63) with 9223372036854775808 in Hk. lia.
Qed.


(** [Abs] keeps the magnitude, also where the negation wraps. *)
Lemma Abs_sign (x : Z) :
  is_int x -> numbers.Abs x = x \/ numbers.Abs x = - x.
Proof.
  intros Hx. apply (proj1 (is_int_bounds _)) in Hx.
  unfold numbers.Abs, neg. destruct (Z.ltb_spec x 0); [|now left].
  destruct (Z.eq_dec x (-9223372036854775808)) as [->|Hne].
  - left. reflexivity.
  - right. apply wrap_small, is_int_bounds. lia.
Qed.

Lemma gcd_Abs (a b : Z) :
  is_int a -> is_int b ->
  Z.gcd (numbers.Abs a) (numbers.Abs b) = Z.gcd a b.
Proof.
  intros Ha Hb.
  destruct (Abs_sign a Ha) as [->| ->], (Abs_sign b Hb) as [->| ->];
    now rewrite ?Z.gcd_opp_l, ?Z.gcd_opp_r.
Qed.

(** Up to its sign the common factor of two non-zero [int]s is their
    greatest common divisor. *)
Lemma findGCF_gcd (a b : Z) :
  is_int a -> is_int b -> a <> 0 -> b <> 0 ->
  Z.abs (numbers.findGCF a b) = Z.gcd a b.
Proof.
  intros Ha Hb Ha0 Hb0. unfold numbers.findGCF.
  destruct (Z.eqb_spec a 0); [contradiction|].
  destruct (Z.eqb_spec b 0); [contradiction|]. cbn [orb].
  rewrite gcf_rounds_gcd.
  - now apply gcd_Abs.
  - destruct (Abs_sign b Hb) as [->| ->]; lia.
  - apply (proj1 (is_int_bounds _)) in Hb.
    change (2 ^ 63) with 9223372036854775808.
    destruct (Abs_sign b Hb) as [->| ->]; lia.
Qed.


Lemma findGCF_zero (a b : Z) : a = 0 \/ b = 0 -> numbers.findGCF a b = 0.
Proof.
  intros Hz. unfold numbers.findGCF.
  destruct (Z.eqb_spec a 0); [reflexivity|].
  destruct (Z.eqb_spec b 0); [reflexivity | lia].
Qed.

(** A non-zero [int] divided by a divisor of it is not zero, also when the
    division wraps. *)
Lemma quo_divisor_nonzero (x g : Z) :
  is_int x -> x <> 0 -> g <> 0 -> (Z.abs g | x) -> quo x g <> 0.
Proof.
  intros Hx Hx0 Hg Hdiv. apply (proj1 (is_int_bounds _)) in Hx.
  apply (proj1 (Z.divide_abs_l _ _)) in Hdiv. destruct Hdiv as [q Hq].
  assert (Hquot : x ÷ g = q) by (rewrite Hq; now apply Z.quot_mul).
  unfold quo. rewrite Hquot.
  assert (Hq0 : q <> 0) by (intros ->; lia).
  assert (Hqb : Z.abs q <= Z.abs x) by nia.
  rewrite wrap_eq. Z.to_euclidean_division_equations. lia.
Qed.

End CommonFactor.

(* ================================================================== *)
(** * WithRatio *)

Section Ratio.

Lemma WithRatio_zero (area : Rectangle) (ratio : Point) :
  area = ZR \/ numbers.SimplifyRatio ratio = ZP ->
  WithRatio area ratio = Some ZR.
Proof.
  intros Hz. unfold WithRatio. cbv zeta.
  destruct (Rectangle_eqb area ZR) eqn:Ea; [reflexivity|].
  destruct (Point_eqb (numbers.SimplifyRatio ratio) ZP) eqn:Er;
    [reflexivity|].
  destruct Hz as [Hz|Hz].
  - apply Rectangle_eqb_eq in Hz. congruence.
  - apply Point_eqb_eq in Hz. congruence.
Qed.

(** The divisions of [WithRatio] are guarded against the zero ratio only:
    the call panics exactly when the area is not the zero rectangle and the
    simplified ratio has one zero component but is not the zero point. *)
Lemma WithRatio_panics_iff (area : Rectangle) (ratio : Point) :
  WithRatio area ratio = None <->
  area <> ZR /\ numbers.SimplifyRatio ratio <> ZP /\
  (X (numbers.SimplifyRatio ratio) = 0 \/ Y (numbers.SimplifyRatio ratio) = 0).
Proof.
  unfold WithRatio. cbv zeta.
  set (r := numbers.SimplifyRatio ratio).
  destruct (Rectangle_eqb area ZR) eqn:Ea.
  { apply Rectangle_eqb_eq in Ea. simpl. split; [discriminate | tauto]. }
  destruct (Point_eqb r ZP) eqn:Er.
  { apply Point_eqb_eq in Er. simpl. split; [discriminate | tauto]. }
  assert (Ha : area <> ZR).
  { intros Hc. apply Rectangle_eqb_eq in Hc. congruence. }
  assert (Hr : r <> ZP).
  { intros Hc. apply Point_eqb_eq in Hc. congruence. }
  simpl. unfold div.
  destruct (Z.eqb_spec (X r) 0) as [Hx|Hx]; [tauto|].
  destruct (Z.eqb_spec (Y r) 0) as [Hy|Hy]; [tauto|].
  split; [discriminate | tauto].
Qed.

(** A ratio with a zero component has no common factor. *)
Lemma SimplifyRatio_zero_component (ratio : Point) :
  X ratio = 0 \/ Y ratio = 0 -> numbers.SimplifyRatio ratio = ZP.
Proof.
  intros Hz. unfold numbers.SimplifyRatio. cbv zeta.
  now rewrite (findGCF_zero _ _ Hz).
Qed.




(** The simplified ratio of two non-zero [int]s has no zero component. *)
Lemma SimplifyRatio_nonzero (ratio : Point) :
  int_point ratio -> X ratio <> 0 -> Y ratio <> 0 ->
  X (numbers.SimplifyRatio ratio) <> 0 /\
  Y (numbers.SimplifyRatio ratio) <> 0.
Proof.
  intros [Hix Hiy] Hx Hy.
  pose proof (findGCF_gcd _ _ Hix Hiy Hx Hy) as Hg.
  assert (Hg0 : numbers.findGCF (X ratio) (Y ratio) <> 0).
  { intros Hz. rewrite Hz in Hg. simpl in Hg. symmetry in Hg.
    apply Z.gcd_eq_0_l in Hg. contradiction. }
  unfold numbers.SimplifyRatio. cbv zeta.
  destruct (Z.eqb_spec (numbers.findGCF (X ratio) (Y ratio)) 0);
    [contradiction|].
  simpl. split; apply quo_divisor_nonzero; auto; rewrite Hg.
  - apply Z.gcd_divide_l.
  - apply Z.gcd_divide_r.
Qed.



End Ratio.




(** C2: [WithRatio] is defined for every area and every ratio of two
    [int]s: the simplified ratio is the zero point as soon as a component
    of the ratio is zero, and has no zero component otherwise, so neither
    division has a zero divisor.  A ratio with exactly one zero component,
    such as (0,5), gives the zero rectangle.  The other operations of the
    package are total functions of this development: each returns its
    result, or the zero rectangle with an error. *)
Theorem WithRatio_never_panics :
  (forall area ratio,
     int_point ratio -> exists res, WithRatio area ratio = Some res) /\
  (forall area ratio,
     X ratio = 0 \/ Y ratio = 0 -> WithRatio area ratio = Some ZR) /\
  (forall area, WithRatio area (mkPoint 0 5) = Some ZR).
Proof.
  assert (Hzero : forall area ratio,
            X ratio = 0 \/ Y ratio = 0 -> WithRatio area ratio = Some ZR).
  { intros area ratio Hz. apply WithRatio_zero. right.
    now apply SimplifyRatio_zero_component. }
  split; [|split; [exact Hzero | intros area; apply Hzero; now left]].
  intros area ratio Hir.
  destruct (Z.eq_dec (X ratio) 0) as [Hx|Hx];
    [exists ZR; apply Hzero; now left|].
  destruct (Z.eq_dec (Y ratio) 0) as [Hy|Hy];
    [exists ZR; apply Hzero; now right|].
  destruct (SimplifyRatio_nonzero ratio Hir Hx Hy) as [Hrx Hry].
  destruct (WithRatio area ratio) as [res|] eqn:E; [now exists res|].
  apply WithRatio_panics_iff in E. destruct E as (_ & _ & [Hz|Hz]);
    contradiction.
Qed.

Lemma WithRatio_never_panics_witness :
  (exists res, WithRatio (Rect 0 0 8 4) (mkPoint (-3) 7) = Some res) /\
  WithRatio (Rect 0 0 8 4) (mkPoint 5 0) = Some ZR.
Proof.
  destruct WithRatio_never_panics as (Hdef & Hzero & _).
  split.
  - apply Hdef. by_eval.
  - apply Hzero. right. reflexivity.
Defined.

(* ================================================================== *)
(** * Shrink *)

Section ShrinkFacts.

(** The search over two values, with its two starting points. *)
Lemma MinMaxInts_pair (a b : Z) :
  numbers.MinMaxInts [a; b] =
    (Z.min (Z.min numbers.MaxInt32 a) b,
     Z.max (Z.max (- numbers.MaxInt32) a) b).
Proof.
  unfold numbers.MinMaxInts, numbers.MaxInt32. cbn [fold_left].
  change (-1 * 2147483647) with (-2147483647).
  destruct (Z.ltb_spec a 2147483647), (Z.gtb_spec a (-2147483647));
  repeat match goal with
    | |- context [?x <? ?y] => destruct (Z.ltb_spec x y)
    | |- context [?x >? ?y] => destruct (Z.gtb_spec x y)
    end; f_equal; lia.
Qed.

(** Inside the searched range the helper finds the two extremes. *)
Lemma MinMaxInts_min (a b : Z) :
  Z.min a b <= numbers.MaxInt32 ->
  fst (numbers.MinMaxInts [a; b]) = Z.min a b.
Proof.
  intros H. rewrite MinMaxInts_pair. unfold numbers.MaxInt32 in *.
  cbn [fst snd]. lia.
Qed.

Lemma MinMaxInts_max (a b : Z) :
  - numbers.MaxInt32 <= Z.max a b ->
  snd (numbers.MinMaxInts [a; b]) = Z.max a b.
Proof.
  intros H. rewrite MinMaxInts_pair. unfold numbers.MaxInt32 in *.
  cbn [fst snd]. lia.
Qed.

(** The result of [Shrink] when no coordinate computation overflows and the
    clamped coordinates lie in the range that [MinMaxInts] searches. *)
Lemma Shrink_clamped (area : Rectangle) (t r b l : Z) :
  int_rect area -> width_fits area -> height_fits area ->
  0 <= t -> 0 <= r -> 0 <= b -> 0 <= l ->
  X (Min area) + l <= intMax -> Y (Min area) + t <= intMax ->
  intMin <= X (Max area) - r -> intMin <= Y (Max area) - b ->
  let minX := Z.min (X (Min area) + l) (X (Max area)) in
  let maxX := Z.max (X (Max area) - r) minX in
  let minY := Z.min (Y (Min area) + t) (Y (Max area)) in
  let maxY := Z.max (Y (Max area) - b) minY in
  minX <= numbers.MaxInt32 -> - numbers.MaxInt32 <= maxX ->
  minY <= numbers.MaxInt32 -> - numbers.MaxInt32 <= maxY ->
  Shrink area t r b l =
    (if (maxX - minX =? 0) || (maxY - minY =? 0) then ZR
     else mkRectangle (mkPoint minX minY) (mkPoint maxX maxY), None) /\
  0 <= maxX - minX <= intMax /\ 0 <= maxY - minY <= intMax.
Proof.
  intros Hint Hw Hh Ht Hr Hb Hl Hxl Hyt Hxr Hyb minX maxX minY maxY
         Hnx Hmx Hny Hmy.
  unfold width_fits in Hw. unfold height_fits in Hh.
  unfold intMax, intMin in *. simpl in Hw, Hh, Hxl, Hyt, Hxr, Hyb.
  assert (Hx : 0 <= maxX - minX <= 9223372036854775807).
  { unfold maxX, minX. int_bounds. lia. }
  assert (Hy : 0 <= maxY - minY <= 9223372036854775807).
  { unfold maxY, minY. int_bounds. lia. }
  split; [|simpl; lia].
  unfold Shrink.
  assert (Hn : first_negative
                 [("topCells"%string, t); ("rightCells"%string, r);
                  ("bottomCells"%string, b); ("leftCells"%string, l)] = None)
    by (apply first_negative_none; lia).
  rewrite Hn. cbv zeta.
  assert (Hal : add (X (Min area)) l = X (Min area) + l)
    by (int_bounds; apply wrap_small, is_int_bounds; lia).
  assert (Hat : add (Y (Min area)) t = Y (Min area) + t)
    by (int_bounds; apply wrap_small, is_int_bounds; lia).
  assert (Hsr : sub (X (Max area)) r = X (Max area) - r)
    by (int_bounds; apply wrap_small, is_int_bounds; lia).
  assert (Hsb : sub (Y (Max area)) b = Y (Max area) - b)
    by (int_bounds; apply wrap_small, is_int_bounds; lia).
  rewrite Hal, Hat, Hsr, Hsb.
  rewrite (MinMaxInts_min (X (Min area) + l)) by exact Hnx. fold minX.
  rewrite (MinMaxInts_max (X (Max area) - r)) by exact Hmx. fold maxX.
  rewrite (MinMaxInts_min (Y (Min area) + t)) by exact Hny. fold minY.
  rewrite (MinMaxInts_max (Y (Max area) - b)) by exact Hmy. fold maxY.
  rewrite Dx_corners, Dy_corners by (apply is_int_bounds; lia).
  now destruct ((maxX - minX =? 0) || (maxY - minY =? 0)).
Qed.

End ShrinkFacts.

(** C5, as amended: for every area and all amounts, [Shrink] fails exactly
    when an amount is negative.  When the four amounts are non-negative, no
    coordinate computation overflows [int] (the width and height of the
    area, min + amount and max - amount) and the clamped coordinates lie in
    the range that the helper [MinMaxInts] searches (the clamped min.x and
    min.y at most MaxInt32, the clamped max.x and max.y at least
    -MaxInt32), the call succeeds, each new min is clamped at the opposite
    max and each new max at the new min, the result has no negative width
    or height, it is the zero rectangle when the clamped width or height is
    zero, and so it is the zero rectangle when the amounts of two opposite
    sides reach the dimension. *)
Theorem Shrink_never_inverts (area : Rectangle) (t r b l : Z) :
  (snd (Shrink area t r b l) <> None <-> t < 0 \/ r < 0 \/ b < 0 \/ l < 0) /\
  (int_rect area -> width_fits area -> height_fits area ->
   0 <= t -> 0 <= r -> 0 <= b -> 0 <= l ->
   X (Min area) + l <= intMax -> Y (Min area) + t <= intMax ->
   intMin <= X (Max area) - r -> intMin <= Y (Max area) - b ->
   let minX := Z.min (X (Min area) + l) (X (Max area)) in
   let maxX := Z.max (X (Max area) - r) minX in
   let minY := Z.min (Y (Min area) + t) (Y (Max area)) in
   let maxY := Z.max (Y (Max area) - b) minY in
   minX <= numbers.MaxInt32 -> - numbers.MaxInt32 <= maxX ->
   minY <= numbers.MaxInt32 -> - numbers.MaxInt32 <= maxY ->
   exists res,
     Shrink area t r b l = (res, None) /\
     0 <= Dx res /\ 0 <= Dy res /\
     X (Min res) <= X (Max res) /\ Y (Min res) <= Y (Max res) /\
     (res <> ZR ->
      X (Min res) <= X (Max area) /\ Y (Min res) <= Y (Max area)) /\
     res = (if (maxX - minX =? 0) || (maxY - minY =? 0) then ZR
            else mkRectangle (mkPoint minX minY) (mkPoint maxX maxY)) /\
     (X (Max area) - X (Min area) <= l + r \/
      Y (Max area) - Y (Min area) <= t + b -> res = ZR)).
Proof.
  split; [apply Shrink_err|].
  intros Hint Hw Hh Ht Hr Hb Hl Hxl Hyt Hxr Hyb minX maxX minY maxY
         Hnx Hmx Hny Hmy.
  destruct (Shrink_clamped area t r b l Hint Hw Hh Ht Hr Hb Hl Hxl Hyt Hxr Hyb
              Hnx Hmx Hny Hmy) as (Heq & Hx & Hy).
  fold minX maxX minY maxY in Heq, Hx, Hy.
  unfold intMax in Hx, Hy. simpl in Hx, Hy.
  eexists. split; [exact Heq|].
  destruct ((maxX - minX =? 0) || (maxY - minY =? 0)) eqn:Ez.
  - split; [vm_compute; discriminate|]. split; [vm_compute; discriminate|].
    split; [simpl; lia|]. split; [simpl; lia|].
    split; [intros Hne; now contradiction Hne|]. now split.
  - rewrite Dx_corners, Dy_corners by (apply is_int_bounds; lia).
    split; [lia|]. split; [lia|]. simpl.
    split; [lia|]. split; [lia|].
    split; [intros _; unfold minX, minY; lia|]. split; [reflexivity|].
    intros Hbig. apply orb_false_iff in Ez. rewrite !Z.eqb_neq in Ez.
    unfold maxX, minX, maxY, minY in Ez. lia.
Qed.

Lemma Shrink_never_inverts_witness :
  let area := mkRectangle (mkPoint 0 0) (mkPoint 10 6) in
  int_rect area /\ (width_fits area /\ height_fits area) /\
  Shrink area 1 2 3 4 = (mkRectangle (mkPoint 4 1) (mkPoint 8 3), None) /\
  Shrink area 0 7 0 7 = (ZR, None) /\
  snd (Shrink area 1 (-2) 3 4) <> None.
Proof.
  intros area.
  assert (Hint : int_rect area) by by_eval.
  assert (Hfit : width_fits area /\ height_fits area) by by_eval.
  refine (conj Hint (conj Hfit (conj _ (conj _ _)))).
  - destruct (proj2 (Shrink_never_inverts area 1 2 3 4) Hint
                (proj1 Hfit) (proj2 Hfit))
      as (res & Heq & _ & _ & _ & _ & _ & Hres & _);
      [vm_compute; discriminate .. |].
    rewrite Heq, Hres. reflexivity.
  - destruct (proj2 (Shrink_never_inverts area 0 7 0 7) Hint
                (proj1 Hfit) (proj2 Hfit))
      as (res & Heq & _ & _ & _ & _ & _ & _ & Hbig);
      [vm_compute; discriminate .. |].
    rewrite Heq, Hbig; [reflexivity|]. left. vm_compute. discriminate.
  - apply (Shrink_never_inverts area 1 (-2) 3 4). right. left. reflexivity.
Defined.

(** C5 as stated fails when a coordinate computation overflows and when a
    coordinate lies outside the range that [MinMaxInts] searches.  The area
    from (intMax, 0) to (intMax, 1) has width 0 and height 1; shrinking its
    left side by one cell wraps min.x to intMin, and the result, which is
    not the zero rectangle, has the width -1.  The area from
    (4294967296, 0) to (4294967306, 6) has width 10; shrinking it by 7 on
    the right and 7 on the left does not give the zero rectangle but
    (2147483647, 0)-(4294967299, 6), whose min.x lies outside the area. *)
Lemma Shrink_counterexample :
  (let area := mkRectangle (mkPoint intMax 0) (mkPoint intMax 1) in
   int_rect area /\ well_formed area /\ Dx area = 0 /\ Dy area = 1 /\
   exists res,
     Shrink area 0 0 0 1 = (res, None) /\ res <> ZR /\ Dx res < 0) /\
  (let area := mkRectangle (mkPoint 4294967296 0) (mkPoint 4294967306 6) in
   int_rect area /\ well_formed area /\ Dx area = 10 /\ Dy area = 6 /\
   Shrink area 0 7 0 7 =
     (mkRectangle (mkPoint 2147483647 0) (mkPoint 4294967299 6), None)).
Proof.
  split; intros area.
  - split; [by_eval|]. split; [by_eval|].
    split; [reflexivity|]. split; [reflexivity|].
    eexists. split; [vm_compute; reflexivity|].
    split; [vm_compute; discriminate | reflexivity].
  - split; [by_eval|]. split; [by_eval|].
    split; [reflexivity|]. split; [reflexivity|].
    vm_compute. reflexivity.
Qed.

(* ================================================================== *)
(** * ShrinkPercent *)

Section ShrinkPercentFacts.

(** The percentages become cell counts and [Shrink] does the rest. *)
Lemma ShrinkPercent_delegates (area : Rectangle) (t r b l : Z) :
  0 <= t <= 100 -> 0 <= r <= 100 -> 0 <= b <= 100 -> 0 <= l <= 100 ->
  ShrinkPercent area t r b l =
    Shrink area (quo (mul (Dy area) t) 100) (quo (mul (Dx area) r) 100)
                (quo (mul (Dy area) b) 100) (quo (mul (Dx area) l) 100).
Proof.
  intros Ht Hr Hb Hl. unfold ShrinkPercent.
  assert (Hn : first_out_of_range
                 [("topPerc"%string, t); ("rightPerc"%string, r);
                  ("bottomPerc"%string, b); ("leftPerc"%string, l)] = None)
    by (apply first_out_of_range_none; lia).
  now rewrite Hn.
Qed.

Lemma percent_of_fitting (d p : Z) :
  0 <= d -> d * 100 <= intMax -> 0 <= p <= 100 ->
  quo (mul d p) 100 = d * p / 100 /\ 0 <= d * p / 100.
Proof.
  intros Hd Hfit Hp.
  assert (Hprod : d * p <= intMax) by nia.
  destruct (percent_exact d p Hd Hp Hprod) as [Hq Hb].
  split; [exact Hq | lia].
Qed.

End ShrinkPercentFacts.

(** C6, as amended: for every area with min <= max componentwise whose
    width and height, taken a hundredfold, do not overflow [int], and all
    percentages in [0,100], [ShrinkPercent] equals [Shrink] of
    [height*topPerc/100], [width*rightPerc/100], [height*bottomPerc/100]
    and [width*leftPerc/100], each product truncated by integer division;
    on such an area it fails exactly when a percentage is outside [0,100];
    and 50 percent off every side of (0,0)-(10,10) gives the zero
    rectangle. *)
Theorem ShrinkPercent_as_Shrink :
  (forall area t r b l,
     int_rect area -> well_formed area ->
     width_fits area -> height_fits area ->
     Dx area * 100 <= intMax -> Dy area * 100 <= intMax ->
     (0 <= t <= 100 -> 0 <= r <= 100 -> 0 <= b <= 100 -> 0 <= l <= 100 ->
      ShrinkPercent area t r b l =
        Shrink area (Dy area * t / 100) (Dx area * r / 100)
                    (Dy area * b / 100) (Dx area * l / 100)) /\
     (snd (ShrinkPercent area t r b l) <> None <->
      (t < 0 \/ t > 100) \/ (r < 0 \/ r > 100) \/
      (b < 0 \/ b > 100) \/ (l < 0 \/ l > 100))) /\
  ShrinkPercent (Rect 0 0 10 10) 50 50 50 50 = (ZR, None).
Proof.
  split; [|reflexivity].
  intros area t r b l Hint Hwf Hw Hh Hw100 Hh100.
  destruct (Dx_fits _ Hint Hwf Hw) as [_ Hdx].
  destruct (Dy_fits _ Hint Hwf Hh) as [_ Hdy].
  assert (Heq : 0 <= t <= 100 -> 0 <= r <= 100 ->
                0 <= b <= 100 -> 0 <= l <= 100 ->
                ShrinkPercent area t r b l =
                  Shrink area (Dy area * t / 100) (Dx area * r / 100)
                              (Dy area * b / 100) (Dx area * l / 100)).
  { intros Ht Hr Hb Hl.
    rewrite ShrinkPercent_delegates by assumption.
    destruct (percent_of_fitting _ _ Hdy Hh100 Ht) as [-> _].
    destruct (percent_of_fitting _ _ Hdx Hw100 Hr) as [-> _].
    destruct (percent_of_fitting _ _ Hdy Hh100 Hb) as [-> _].
    destruct (percent_of_fitting _ _ Hdx Hw100 Hl) as [-> _].
    reflexivity. }
  split; [exact Heq|].
  split.
  - intros Herr.
    destruct (Z_le_dec 0 t), (Z_le_dec t 100), (Z_le_dec 0 r),
      (Z_le_dec r 100), (Z_le_dec 0 b), (Z_le_dec b 100),
      (Z_le_dec 0 l), (Z_le_dec l 100); try lia.
    exfalso. rewrite Heq in Herr by lia.
    apply Shrink_err in Herr.
    destruct (percent_of_fitting _ t Hdy Hh100) as [_ ?]; [lia|].
    destruct (percent_of_fitting _ r Hdx Hw100) as [_ ?]; [lia|].
    destruct (percent_of_fitting _ b Hdy Hh100) as [_ ?]; [lia|].
    destruct (percent_of_fitting _ l Hdx Hw100) as [_ ?]; [lia|].
    lia.
  - intros Hout.
    destruct (ShrinkPercent_out_of_range area t r b l) as [e He]; [lia|].
    rewrite He. simpl. discriminate.
Qed.

Lemma ShrinkPercent_as_Shrink_witness :
  let area := mkRectangle (mkPoint 0 0) (mkPoint 20 10) in
  int_rect area /\ well_formed area /\
  (width_fits area /\ height_fits area) /\
  (Dx area * 100 <= intMax /\ Dy area * 100 <= intMax) /\
  ShrinkPercent area 10 20 30 40 = Shrink area 1 4 3 8 /\
  snd (ShrinkPercent area 10 20 30 101) <> None.
Proof.
  intros area.
  assert (Hint : int_rect area) by by_eval.
  assert (Hwf : well_formed area) by by_eval.
  assert (Hfit : width_fits area /\ height_fits area) by by_eval.
  assert (H100 : Dx area * 100 <= intMax /\ Dy area * 100 <= intMax)
    by by_eval.
  destruct ShrinkPercent_as_Shrink as [Hgen _].
  refine (conj Hint (conj Hwf (conj Hfit (conj H100 (conj _ _))))).
  - destruct (Hgen area 10 20 30 40 Hint Hwf (proj1 Hfit) (proj2 Hfit)
                (proj1 H100) (proj2 H100)) as [Heq _].
    rewrite Heq by lia. reflexivity.
  - destruct (Hgen area 10 20 30 101 Hint Hwf (proj1 Hfit) (proj2 Hfit)
                (proj1 H100) (proj2 H100)) as [_ Herr].
    apply Herr. lia.
Defined.

(** C6 as stated fails when a product overflows: on the area from (0,0) to
    (1, 2^62), which has min <= max, the percentages 50, 0, 0, 0 lie in
    [0,100], yet [height * 50] wraps to a negative number and the call
    fails. *)
Lemma ShrinkPercent_counterexample :
  let area := mkRectangle (mkPoint 0 0) (mkPoint 1 (2 ^ 62)) in
  int_rect area /\ well_formed area /\ 0 <= 50 <= 100 /\ 0 <= 0 <= 100 /\
  snd (ShrinkPercent area 50 0 0 0) <> None.
Proof.
  intros area.
  split; [by_eval|]. split; [by_eval|]. split; [lia|]. split; [lia|].
  vm_compute. discriminate.
Qed.

(* ================================================================== *)
(** * Cells and their options *)

Import table.

Section CellFacts.

Context `{Collaborators}.

Lemma field_eqb_eq (f g : field) : field_eqb f g = true <-> f = g.
Proof. destruct f, g; simpl; split; congruence. Qed.

Lemma field_eqb_refl (f : field) : field_eqb f f = true.
Proof. now apply field_eqb_eq. Qed.

Lemma field_eqb_neq (f g : field) : f <> g -> field_eqb f g = false.
Proof.
  intros Hne. destruct (field_eqb f g) eqn:E; [|reflexivity].
  apply field_eqb_eq in E. contradiction.
Qed.

(** Two cells agree when they agree on [data] and on every field. *)
Lemma Cell_ext (c1 c2 : Cell) :
  hierarchical c1 <> None -> hierarchical c2 <> None ->
  data c1 = data c2 -> (forall f, read f c1 = read f c2) -> c1 = c2.
Proof.
  destruct c1 as [d1 cs1 rs1 [h1|]], c2 as [d2 cs2 rs2 [h2|]];
    simpl; try congruence.
  intros _ _ Hd Hf.
  pose proof (Hf f_colSpan) as E1. pose proof (Hf f_rowSpan) as E2.
  pose proof (Hf f_cellOpts) as E3. pose proof (Hf f_height) as E4.
  pose proof (Hf f_horizontalPadding) as E5.
  pose proof (Hf f_verticalPadding) as E6.
  pose proof (Hf f_alignHorizontal) as E7.
  pose proof (Hf f_alignVertical) as E8.
  pose proof (Hf f_wrapMode) as E9.
  destruct h1, h2. simpl in *. congruence.
Qed.

(** One application of a setter to a cell with an options record. *)
Lemma option_of_effect (s : setter) (d : list Data) (cs rs : Z)
      (h : hierarchicalOptions) :
  exists c',
    option_of s (mkCell d cs rs (Some h)) = Some c' /\
    data c' = d /\
    hierarchical c' <> None /\
    forall f, read f c' =
              if field_eqb (target s) f then Some (stored s)
              else read f (mkCell d cs rs (Some h)).
Proof.
  destruct s; (eexists; split; [reflexivity|]; split; [reflexivity|];
               split; [discriminate|]; intros f; destruct f; reflexivity).
Qed.

Lemma find_app {A : Type} (p : A -> bool) (l1 l2 : list A) :
  find p (l1 ++ l2) =
    match find p l1 with Some x => Some x | None => find p l2 end.
Proof.
  induction l1 as [|a l1 IH]; simpl; [reflexivity|].
  destruct (p a); [reflexivity | exact IH].
Qed.

Lemma last_writer_cons (f : field) (s : setter) (ss : list setter) :
  last_writer f (s :: ss) =
    match last_writer f ss with
    | Some s' => Some s'
    | None => if field_eqb (target s) f then Some s else None
    end.
Proof.
  unfold last_writer. simpl rev. rewrite find_app. simpl.
  destruct (find _ (rev ss)); [reflexivity|].
  destruct (field_eqb (target s) f); reflexivity.
Qed.

Lemma last_writer_none (f : field) (ss : list setter) :
  (forall s, In s ss -> target s <> f) -> last_writer f ss = None.
Proof.
  induction ss as [|s ss IH]; intros Hno; [reflexivity|].
  rewrite last_writer_cons, IH by (intros; apply Hno; now right).
  rewrite field_eqb_neq; [reflexivity|]. apply Hno. now left.
Qed.

Lemma last_writer_last (f : field) (pre post : list setter) (s : setter) :
  target s = f -> (forall s', In s' post -> target s' <> f) ->
  last_writer f (pre ++ s :: post) = Some s.
Proof.
  intros Ht Hpost. induction pre as [|p pre IH]; simpl.
  - rewrite last_writer_cons, last_writer_none by assumption.
    now rewrite Ht, field_eqb_refl.
  - now rewrite last_writer_cons, IH.
Qed.

(** The loop, started on any cell that has an options record. *)
Lemma apply_setters (ss : list setter) :
  forall c0, hierarchical c0 <> None ->
  exists c,
    apply_opts (map option_of ss) c0 = Some c /\
    data c = data c0 /\
    hierarchical c <> None /\
    forall f, read f c =
              match last_writer f ss with
              | Some s => Some (stored s)
              | None => read f c0
              end.
Proof.
  induction ss as [|s ss IH]; intros c0 Halloc.
  - exists c0. repeat split; auto.
  - destruct c0 as [d cs rs [h|]]; [|contradiction].
    destruct (option_of_effect s d cs rs h) as (c1 & E1 & D1 & A1 & R1).
    destruct (IH c1 A1) as (c & E & D & A & R).
    exists c. simpl. unfold set. rewrite E1.
    split; [exact E|]. split; [now rewrite D, D1|]. split; [exact A|].
    intros f. rewrite R, last_writer_cons, R1.
    destruct (last_writer f ss); [reflexivity|].
    destruct (field_eqb (target s) f); reflexivity.
Qed.

Lemma apply_opts_app (opts1 opts2 : list CellOption) (c : Cell) :
  apply_opts (opts1 ++ opts2) c =
    match apply_opts opts1 c with
    | None => None
    | Some c' => apply_opts opts2 c'
    end.
Proof.
  revert c. induction opts1 as [|o opts1 IH]; intros c; simpl;
    [reflexivity|].
  destruct (set o c); [apply IH | reflexivity].
Qed.

End CellFacts.

(** C9: each of the nine option setters, applied to a cell with its
    hierarchical options record (every cell that [NewCellWithOpts] hands to
    an option has one), writes the one field that is its target, in the
    cell or in that record, and leaves [data] and every other field as they
    were.  In particular [CellColSpan n], on every cell, changes [colSpan]
    alone. *)
Theorem setter_writes_one_field `{Collaborators} :
  (forall (s : setter) (d : list Data) (cs rs : Z) (h : hierarchicalOptions),
     exists c',
       option_of s (mkCell d cs rs (Some h)) = Some c' /\
       data c' = d /\
       hierarchical c' <> None /\
       read (target s) c' = Some (stored s) /\
       forall f, f <> target s ->
                 read f c' = read f (mkCell d cs rs (Some h))) /\
  (forall (c : Cell) (n : Z),
     CellColSpan n c
       = Some (mkCell (data c) n (rowSpan c) (hierarchical c))) /\
  (forall (c : Cell) (n : Z),
     CellRowSpan n c
       = Some (mkCell (data c) (colSpan c) n (hierarchical c))).
Proof.
  split; [|split; reflexivity].
  intros s d cs rs h.
  destruct (option_of_effect s d cs rs h) as (c' & E & D & A & R).
  exists c'. split; [exact E|]. split; [exact D|]. split; [exact A|].
  split.
  - now rewrite R, field_eqb_refl.
  - intros f Hne. rewrite R, field_eqb_neq; [reflexivity | congruence].
Qed.

Lemma setter_writes_one_field_witness :
  let c := @mkCell sample_collaborators ["a"%string] 1 1 (Some no_overrides) in
  f_colSpan <> target (@Height sample_collaborators 3) /\
  exists c',
    option_of (Height 3) c = Some c' /\
    read f_height c' = Some (v_int_ptr (Some 3)) /\
    read f_colSpan c' = read f_colSpan c.
Proof.
  intros c.
  assert (Hne : f_colSpan <> target (@Height sample_collaborators 3))
    by discriminate.
  split; [exact Hne|].
  destruct (@setter_writes_one_field sample_collaborators) as [Hgen _].
  destruct (Hgen (Height 3) ["a"%string] 1 1 no_overrides)
    as (c' & E & _ & _ & Hw & Hframe).
  exists c'. split; [exact E|]. split; [exact Hw|].
  exact (Hframe f_colSpan Hne).
Defined.

(** C7: [NewCellWithOpts] applies the options in list order, and the last
    option of the list that writes a field decides it: with [CellColSpan 2]
    then [CellColSpan 3] the cell has [colSpan = 3].  A field that no
    option of the list writes keeps its default: [colSpan = 1],
    [rowSpan = 1], every hierarchical option unset; and [data] is the
    sequence passed in. *)
Theorem NewCellWithOpts_last_write_wins `{Collaborators} :
  (forall (d : list Data) (opts1 opts2 : list CellOption),
     NewCellWithOpts d (opts1 ++ opts2) =
       match NewCellWithOpts d opts1 with
       | None => None
       | Some c => apply_opts opts2 c
       end) /\
  (forall (d : list Data) (ss : list setter),
     exists c,
       NewCellWithOpts d (map option_of ss) = Some c /\
       data c = d /\
       (forall f, read f c =
                  Some (match last_writer f ss with
                        | Some s => stored s
                        | None => default f
                        end)) /\
       (forall pre s post,
          ss = pre ++ s :: post ->
          (forall s', In s' post -> target s' <> target s) ->
          read (target s) c = Some (stored s)) /\
       (forall f, (forall s, In s ss -> target s <> f) ->
                  read f c = Some (default f))) /\
  (forall d : list Data,
     exists c, NewCellWithOpts d [CellColSpan 2; CellColSpan 3] = Some c /\
               colSpan c = 3) /\
  (forall d : list Data,
     NewCellWithOpts d [] = Some (mkCell d 1 1 (Some no_overrides))).
Proof.
  split; [intros; apply apply_opts_app|].
  split; [|split; [intros d; eexists; split; reflexivity | reflexivity]].
  intros d ss. unfold NewCellWithOpts. cbv zeta.
  destruct (apply_setters ss (mkCell d 1 1 (Some no_overrides)))
    as (c & E & D & _ & R); [discriminate|].
  assert (Rd : forall f, read f c =
                 Some (match last_writer f ss with
                       | Some s => stored s
                       | None => default f
                       end)).
  { intros f. rewrite R. destruct (last_writer f ss); [reflexivity|].
    destruct f; reflexivity. }
  exists c. split; [exact E|]. split; [exact D|]. split; [exact Rd|].
  split.
  - intros pre s post -> Hpost.
    now rewrite Rd, (last_writer_last (target s) pre post s).
  - intros f Hno. now rewrite Rd, last_writer_none.
Qed.

Lemma NewCellWithOpts_last_write_wins_witness :
  let ss := [@ColSpan sample_collaborators 2; Height 4; ColSpan 3] in
  (forall s, In s ss -> target s <> f_rowSpan) /\
  exists c,
    @NewCellWithOpts sample_collaborators ["a"%string; "b"%string]
      (map option_of ss) = Some c /\
    data c = ["a"%string; "b"%string] /\
    read f_colSpan c = Some (v_int 3) /\
    read f_rowSpan c = Some (v_int 1).
Proof.
  intros ss.
  assert (Hno : forall s, In s ss -> target s <> f_rowSpan).
  { intros s [<-|[<-|[<-|[]]]]; discriminate. }
  split; [exact Hno|].
  destruct (@NewCellWithOpts_last_write_wins sample_collaborators)
    as (_ & Hgen & _).
  destruct (Hgen ["a"%string; "b"%string] ss)
    as (c & E & D & _ & Hlast & Hdef).
  exists c. split; [exact E|]. split; [exact D|]. split.
  - apply (Hlast [ColSpan 2; Height 4] (ColSpan 3) []); [reflexivity|].
    intros s' [].
  - exact (Hdef f_rowSpan Hno).
Defined.

(* ================================================================== *)
(** * Further properties of the splits *)





Section SplitEnds.

Lemma add_zero (z : Z) : is_int z -> add z 0 = z.
Proof. intros Hz. unfold add. rewrite Z.add_0_r. now apply wrap_small. Qed.

Lemma HSplit_zero (area : Rectangle) :
  int_rect area -> well_formed area ->
  HSplit area 0 = (ZR, if Dy area =? 0 then ZR else area, None).
Proof.
  intros Hint Hwf. unfold HSplit. cbv zeta. simpl orb. cbv iota.
  assert (Hh : quo (mul (Dy area) 0) 100 = 0).
  { unfold quo, mul. now rewrite Z.mul_0_r. }
  rewrite Hh. destruct area as [[x0 y0] [x1 y1]].
  destruct Hint as [[Hx0 Hy0] [Hx1 Hy1]]. destruct Hwf as [Hx Hy].
  simpl in *. rewrite (add_zero _ Hy0), !Rect_ordered by lia.
  assert (Hflat : Dy (mkRectangle (mkPoint x0 y0) (mkPoint x1 y0)) = 0).
  { unfold Dy, sub. simpl. now rewrite Z.sub_diag. }
  now rewrite Hflat.
Qed.

Lemma VSplit_zero (area : Rectangle) :
  int_rect area -> well_formed area ->
  VSplit area 0 = (ZR, if Dx area =? 0 then ZR else area, None).
Proof.
  intros Hint Hwf. unfold VSplit. cbv zeta. simpl orb. cbv iota.
  assert (Hw : quo (mul (Dx area) 0) 100 = 0).
  { unfold quo, mul. now rewrite Z.mul_0_r. }
  rewrite Hw. destruct area as [[x0 y0] [x1 y1]].
  destruct Hint as [[Hx0 Hy0] [Hx1 Hy1]]. destruct Hwf as [Hx Hy].
  simpl in *. rewrite (add_zero _ Hx0), !Rect_ordered by lia.
  assert (Hflat : Dx (mkRectangle (mkPoint x0 y0) (mkPoint x0 y1)) = 0).
  { unfold Dx, sub. simpl. now rewrite Z.sub_diag. }
  now rewrite Hflat.
Qed.

Lemma whole_percentage (d : Z) : d * 100 / 100 = d.
Proof. apply Z.div_mul. lia. Qed.

Lemma HSplit_hundred (area : Rectangle) :
  int_rect area -> well_formed area -> height_fits area ->
  Dy area * 100 <= intMax ->
  HSplit area 100 = (if Dy area =? 0 then ZR else area, ZR, None).
Proof.
  intros Hint Hwf Hfit Hprod.
  destruct (Dy_fits _ Hint Hwf Hfit) as [Hd Hpos].
  rewrite (HSplit_halves _ _ Hint Hwf) by (auto; lia).
  rewrite whole_percentage, Z.sub_diag. simpl.
  destruct (Dy area =? 0); [reflexivity|].
  rewrite Hd. destruct area as [[x0 y0] [x1 y1]]. simpl.
  now replace (y0 + (y1 - y0)) with y1 by lia.
Qed.

Lemma VSplit_hundred (area : Rectangle) :
  int_rect area -> well_formed area -> width_fits area ->
  Dx area * 100 <= intMax ->
  VSplit area 100 = (if Dx area =? 0 then ZR else area, ZR, None).
Proof.
  intros Hint Hwf Hfit Hprod.
  destruct (Dx_fits _ Hint Hwf Hfit) as [Hd Hpos].
  rewrite (VSplit_halves _ _ Hint Hwf) by (auto; lia).
  rewrite whole_percentage, Z.sub_diag. simpl.
  destruct (Dx area =? 0); [reflexivity|].
  rewrite Hd. destruct area as [[x0 y0] [x1 y1]]. simpl.
  now replace (x0 + (x1 - x0)) with x1 by lia.
Qed.

End SplitEnds.

(** X3: at the two ends of the percentage range a split hands the whole
    area to one side.  At 0 percent the first half is the zero rectangle
    and the second is the area itself; at 100 percent, when a hundredfold
    of the dimension does not overflow, the first half is the area itself
    and the second the zero rectangle.  An area of height (for [HSplit]) or
    width (for [VSplit]) zero comes back as the zero rectangle, not as
    itself. *)
Theorem split_at_ends (area : Rectangle) :
  int_rect area -> well_formed area ->
  HSplit area 0 = (ZR, if Dy area =? 0 then ZR else area, None) /\
  VSplit area 0 = (ZR, if Dx area =? 0 then ZR else area, None) /\
  (height_fits area -> Dy area * 100 <= intMax ->
   HSplit area 100 = (if Dy area =? 0 then ZR else area, ZR, None)) /\
  (width_fits area -> Dx area * 100 <= intMax ->
   VSplit area 100 = (if Dx area =? 0 then ZR else area, ZR, None)).
Proof.
  intros Hint Hwf.
  split; [now apply HSplit_zero|]. split; [now apply VSplit_zero|].
  split; intros; [now apply HSplit_hundred | now apply VSplit_hundred].
Qed.

Lemma split_at_ends_witness :
  let area := mkRectangle (mkPoint 2 3) (mkPoint 12 23) in
  let flat := mkRectangle (mkPoint 2 3) (mkPoint 12 3) in
  HSplit area 0 = (ZR, area, None) /\
  VSplit area 100 = (area, ZR, None) /\
  HSplit flat 100 = (ZR, ZR, None).
Proof.
  intros area flat.
  destruct (split_at_ends area) as (H0 & _ & _ & V100); [by_eval..|].
  destruct (split_at_ends flat) as (_ & _ & H100 & _); [by_eval..|].
  split; [exact H0|]. split.
  - apply V100; by_eval.
  - apply H100; by_eval.
Defined.

(* ================================================================== *)
(** * Sizes *)

(** X4: [Size] undoes [FromSize]: for every size of two non-negative
    components [FromSize] succeeds and the size of its result is the size
    given. *)
Theorem Size_FromSize (size : Point) :
  int_point size -> 0 <= X size -> 0 <= Y size ->
  snd (FromSize size) = None /\ Size (fst (FromSize size)) = size.
Proof.
  intros [Hx Hy] Hx0 Hy0. unfold FromSize.
  destruct (Z.ltb_spec (X size) 0); [lia|].
  destruct (Z.ltb_spec (Y size) 0); [lia|]. simpl.
  split; [reflexivity|].
  rewrite Rect_ordered by lia. unfold Size.
  rewrite Dx_corners, Dy_corners by (now rewrite Z.sub_0_r).
  destruct size. simpl. now rewrite !Z.sub_0_r.
Qed.

Lemma Size_FromSize_witness :
  snd (FromSize (mkPoint 80 24)) = None /\
  Size (fst (FromSize (mkPoint 80 24))) = mkPoint 80 24.
Proof.
  apply (Size_FromSize (mkPoint 80 24)); by_eval.
Defined.

(* ================================================================== *)
(** * Further properties of Shrink *)

Section ShrinkInset.

Lemma modest_bounds (z : Z) :
  modest z <-> -2147483647 <= z <= 2147483647.
Proof. reflexivity. Qed.

Lemma modest_is_int (z : Z) : modest z -> is_int z.
Proof.
  intros Hz. apply (proj1 (modest_bounds _)) in Hz.
  apply is_int_bounds. lia.
Qed.

Lemma modest_rect_int (area : Rectangle) : modest_rect area -> int_rect area.
Proof.
  intros (H1 & H2 & H3 & H4). repeat split; now apply modest_is_int.
Qed.

Lemma modest_rect_fits (area : Rectangle) :
  modest_rect area -> width_fits area /\ height_fits area.
Proof.
  intros (H1 & H2 & H3 & H4).
  apply (proj1 (modest_bounds _)) in H1, H2, H3, H4.
  unfold width_fits, height_fits, intMax. simpl. lia.
Qed.

End ShrinkInset.

(** Opens a [modest_rect] hypothesis into bounds for [lia]. *)
Ltac modest_open H :=
  let H1 := fresh "Hm" in let H2 := fresh "Hm" in
  let H3 := fresh "Hm" in let H4 := fresh "Hm" in
  pose proof H as (H1 & H2 & H3 & H4);
  apply (proj1 (modest_bounds _)) in H1, H2, H3, H4.

Section ShrinkRoom.

(** When the amounts leave room, no clamp is reached. *)
Lemma Shrink_room (area : Rectangle) (t r b l : Z) :
  modest_rect area ->
  0 <= t -> 0 <= r -> 0 <= b -> 0 <= l ->
  l + r < X (Max area) - X (Min area) ->
  t + b < Y (Max area) - Y (Min area) ->
  Shrink area t r b l =
    (mkRectangle (mkPoint (X (Min area) + l) (Y (Min area) + t))
                 (mkPoint (X (Max area) - r) (Y (Max area) - b)), None).
Proof.
  intros Hm Ht Hr Hb Hl Hx Hy. modest_open Hm.
  destruct (modest_rect_fits _ Hm) as [Hw Hh].
  destruct (Shrink_clamped area t r b l (modest_rect_int _ Hm) Hw Hh
              Ht Hr Hb Hl) as [Heq _].
  1-8: unfold intMax, intMin, numbers.MaxInt32; simpl; lia.
  rewrite Heq. cbv zeta.
  rewrite !Z.min_l, !Z.max_l by lia.
  destruct (Z.eqb_spec (X (Max area) - r - (X (Min area) + l)) 0); [lia|].
  destruct (Z.eqb_spec (Y (Max area) - b - (Y (Min area) + t)) 0); [lia|].
  reflexivity.
Qed.

(** When two opposite amounts reach the dimension, nothing is left. *)
Lemma Shrink_no_room (area : Rectangle) (t r b l : Z) :
  modest_rect area ->
  0 <= t -> 0 <= r -> 0 <= b -> 0 <= l ->
  X (Min area) + l <= intMax -> Y (Min area) + t <= intMax ->
  intMin <= X (Max area) - r -> intMin <= Y (Max area) - b ->
  X (Max area) - X (Min area) <= l + r \/
  Y (Max area) - Y (Min area) <= t + b ->
  Shrink area t r b l = (ZR, None).
Proof.
  intros Hm Ht Hr Hb Hl Hxl Hyt Hxr Hyb Hbig. modest_open Hm.
  destruct (modest_rect_fits _ Hm) as [Hw Hh].
  destruct (Shrink_clamped area t r b l (modest_rect_int _ Hm) Hw Hh
              Ht Hr Hb Hl Hxl Hyt Hxr Hyb) as [Heq _].
  1-4: unfold numbers.MaxInt32; simpl; lia.
  rewrite Heq. cbv zeta.
  match goal with
  | |- (if ?c then _ else _, _) = _ =>
      assert (Hz : c = true); [|now rewrite Hz]
  end.
  apply orb_true_iff. rewrite !Z.eqb_eq. lia.
Qed.

End ShrinkRoom.

(** X5: on an area whose coordinates lie between -MaxInt32 and MaxInt32,
    amounts that leave room (left + right below the width, top + bottom
    below the height) move each side inwards by exactly its amount: the
    result is the rectangle from (min.x + left, min.y + top) to
    (max.x - right, max.y - bottom), it lies inside the area and it is not
    the zero rectangle. *)
Theorem Shrink_inset (area : Rectangle) (t r b l : Z) :
  modest_rect area ->
  0 <= t -> 0 <= r -> 0 <= b -> 0 <= l ->
  l + r < X (Max area) - X (Min area) ->
  t + b < Y (Max area) - Y (Min area) ->
  exists res,
    Shrink area t r b l = (res, None) /\
    res = mkRectangle (mkPoint (X (Min area) + l) (Y (Min area) + t))
                      (mkPoint (X (Max area) - r) (Y (Max area) - b)) /\
    res <> ZR /\
    X (Min area) <= X (Min res) /\ X (Min res) < X (Max res) /\
    X (Max res) <= X (Max area) /\
    Y (Min area) <= Y (Min res) /\ Y (Min res) < Y (Max res) /\
    Y (Max res) <= Y (Max area).
Proof.
  intros Hm Ht Hr Hb Hl Hx Hy.
  eexists. split; [now apply Shrink_room|]. split; [reflexivity|].
  simpl. split; [|lia].
  unfold ZR, ZP. intros Hc. injection Hc. lia.
Qed.

Lemma Shrink_inset_witness :
  Shrink (mkRectangle (mkPoint 0 0) (mkPoint 10 6)) 1 2 3 4
    = (mkRectangle (mkPoint 4 1) (mkPoint 8 3), None).
Proof.
  destruct (Shrink_inset (mkRectangle (mkPoint 0 0) (mkPoint 10 6)) 1 2 3 4)
    as (res & Heq & Hres & _); [by_eval..|].
  rewrite Heq, Hres. reflexivity.
Defined.

(** X6: on an area with min <= max whose coordinates lie between -MaxInt32
    and MaxInt32, [Shrink] with four zero amounts gives back an area of
    positive width and height unchanged, and turns an area of zero width or
    zero height, wherever it lies, into the zero rectangle. *)
Theorem Shrink_nothing (area : Rectangle) :
  modest_rect area -> well_formed area ->
  Shrink area 0 0 0 0 =
    (if (Dx area =? 0) || (Dy area =? 0) then ZR else area, None).
Proof.
  intros Hm Hwf. modest_open Hm.
  destruct (modest_rect_fits _ Hm) as [Hw Hh].
  destruct (Dx_fits _ (modest_rect_int _ Hm) Hwf Hw) as [Hdx Hx0].
  destruct (Dy_fits _ (modest_rect_int _ Hm) Hwf Hh) as [Hdy Hy0].
  rewrite Hdx, Hdy in *.
  destruct (Z.eqb_spec (X (Max area) - X (Min area)) 0) as [Ex|Ex].
  { apply Shrink_no_room; auto; try lia;
      unfold intMax, intMin; simpl; lia. }
  destruct (Z.eqb_spec (Y (Max area) - Y (Min area)) 0) as [Ey|Ey].
  { apply Shrink_no_room; auto; try lia;
      unfold intMax, intMin; simpl; lia. }
  rewrite Shrink_room by (auto; lia). simpl.
  destruct area as [[x0 y0] [x1 y1]]. simpl.
  now rewrite !Z.add_0_r, !Z.sub_0_r.
Qed.

Lemma Shrink_nothing_witness :
  Shrink (mkRectangle (mkPoint 3 4) (mkPoint 9 8)) 0 0 0 0
    = (mkRectangle (mkPoint 3 4) (mkPoint 9 8), None) /\
  Shrink (mkRectangle (mkPoint 3 4) (mkPoint 3 8)) 0 0 0 0 = (ZR, None).
Proof.
  split.
  - rewrite (Shrink_nothing (mkRectangle (mkPoint 3 4) (mkPoint 9 8)));
      [reflexivity | by_eval ..].
  - rewrite (Shrink_nothing (mkRectangle (mkPoint 3 4) (mkPoint 3 8)));
      [reflexivity | by_eval ..].
Defined.

Section ShrinkTwice.

(** Side conditions that follow from [modest] bounds. *)
Ltac modestly :=
  repeat match goal with a := _ : Rectangle |- _ => subst a end;
  unfold modest_rect, modest, numbers.MaxInt32, intMax, intMin in *;
  simpl in *;
  repeat match goal with
    | |- _ /\ _ => split
    end;
  simpl; lia.

Lemma Shrink_twice_cases (x0 y0 x1 y1 t1 r1 b1 l1 t2 r2 b2 l2 : Z) :
  let area := mkRectangle (mkPoint x0 y0) (mkPoint x1 y1) in
  modest_rect area -> well_formed area ->
  0 <= t1 <= numbers.MaxInt32 -> 0 <= r1 <= numbers.MaxInt32 ->
  0 <= b1 <= numbers.MaxInt32 -> 0 <= l1 <= numbers.MaxInt32 ->
  0 <= t2 <= numbers.MaxInt32 -> 0 <= r2 <= numbers.MaxInt32 ->
  0 <= b2 <= numbers.MaxInt32 -> 0 <= l2 <= numbers.MaxInt32 ->
  exists res1 res,
    Shrink area t1 r1 b1 l1 = (res1, None) /\
    Shrink res1 t2 r2 b2 l2 = (res, None) /\
    Shrink area (t1 + t2) (r1 + r2) (b1 + b2) (l1 + l2) = (res, None).
Proof.
  intros area Hm Hwf Ht1 Hr1 Hb1 Hl1 Ht2 Hr2 Hb2 Hl2.
  destruct Hwf as [Hwx Hwy]. simpl in Hwx, Hwy.
  assert (Hroom1 : (l1 + r1 < x1 - x0 /\ t1 + b1 < y1 - y0) \/
                   (x1 - x0 <= l1 + r1 \/ y1 - y0 <= t1 + b1)) by lia.
  destruct Hroom1 as [[Hx1 Hy1]|Hfull1].
  - exists (mkRectangle (mkPoint (x0 + l1) (y0 + t1))
                        (mkPoint (x1 - r1) (y1 - b1))).
    assert (E1 : Shrink area t1 r1 b1 l1 =
                 (mkRectangle (mkPoint (x0 + l1) (y0 + t1))
                              (mkPoint (x1 - r1) (y1 - b1)), None)).
    { apply (Shrink_room area); simpl; try lia; modestly. }
    assert (Hroom2 : (l2 + r2 < x1 - r1 - (x0 + l1) /\
                      t2 + b2 < y1 - b1 - (y0 + t1)) \/
                     (x1 - r1 - (x0 + l1) <= l2 + r2 \/
                      y1 - b1 - (y0 + t1) <= t2 + b2)) by lia.
    destruct Hroom2 as [[Hx2 Hy2]|Hfull2].
    + exists (mkRectangle (mkPoint (x0 + l1 + l2) (y0 + t1 + t2))
                          (mkPoint (x1 - r1 - r2) (y1 - b1 - b2))).
      split; [exact E1|]. split.
      * apply (Shrink_room (mkRectangle (mkPoint (x0 + l1) (y0 + t1))
                              (mkPoint (x1 - r1) (y1 - b1))));
          simpl; try lia; modestly.
      * rewrite (Shrink_room area) by (simpl; try lia; modestly).
        simpl. now rewrite !Z.add_assoc, !Z.sub_add_distr.
    + exists ZR. split; [exact E1|]. split.
      * apply Shrink_no_room; simpl; try lia; modestly.
      * apply (Shrink_no_room area); simpl; try lia; modestly.
  - exists ZR, ZR. split; [|split].
    + apply (Shrink_no_room area); simpl; try lia; modestly.
    + apply Shrink_no_room; simpl; try lia; modestly.
    + apply (Shrink_no_room area); simpl; try lia; modestly.
Qed.

End ShrinkTwice.

(** X7: shrinking twice is shrinking once by the sums.  On an area with
    min <= max whose coordinates lie between -MaxInt32 and MaxInt32 and for
    amounts between 0 and MaxInt32, both calls succeed and [Shrink] of the
    result of [Shrink area t1 r1 b1 l1] by [t2 r2 b2 l2] is the result of
    [Shrink area (t1+t2) (r1+r2) (b1+b2) (l1+l2)], the zero rectangle
    included. *)
Theorem Shrink_twice (area : Rectangle) (t1 r1 b1 l1 t2 r2 b2 l2 : Z) :
  modest_rect area -> well_formed area ->
  0 <= t1 <= numbers.MaxInt32 -> 0 <= r1 <= numbers.MaxInt32 ->
  0 <= b1 <= numbers.MaxInt32 -> 0 <= l1 <= numbers.MaxInt32 ->
  0 <= t2 <= numbers.MaxInt32 -> 0 <= r2 <= numbers.MaxInt32 ->
  0 <= b2 <= numbers.MaxInt32 -> 0 <= l2 <= numbers.MaxInt32 ->
  exists res1 res,
    Shrink area t1 r1 b1 l1 = (res1, None) /\
    Shrink res1 t2 r2 b2 l2 = (res, None) /\
    Shrink area (t1 + t2) (r1 + r2) (b1 + b2) (l1 + l2) = (res, None).
Proof.
  destruct area as [[x0 y0] [x1 y1]]. apply Shrink_twice_cases.
Qed.

Lemma Shrink_twice_witness :
  let area := mkRectangle (mkPoint 0 0) (mkPoint 20 10) in
  exists res1,
    Shrink area 1 2 1 3 = (res1, None) /\
    Shrink res1 2 1 0 4 = Shrink area 3 3 1 7.
Proof.
  intros area.
  destruct (Shrink_twice area 1 2 1 3 2 1 0 4)
    as (res1 & res & E1 & E2 & E3); [by_eval..|].
  exists res1. split; [exact E1|].
  rewrite E2. symmetry. exact E3.
Defined.

(* ================================================================== *)
(** * Further properties of WithRatio *)

Section RatioFits.

(** The result for a simplified ratio of two positive components, whatever
    the ratio it was obtained from. *)
Lemma WithRatio_of_simplified (area : Rectangle) (ratio : Point) :
  int_rect area -> well_formed area -> width_fits area -> height_fits area ->
  let r := numbers.SimplifyRatio ratio in
  0 < X r -> 0 < Y r ->
  let scale := Z.min (Dx area / X r) (Dy area / Y r) in
  WithRatio area ratio =
    Some (mkRectangle (Min area)
            (mkPoint (X (Min area) + X r * scale)
                     (Y (Min area) + Y r * scale))) /\
  0 <= scale /\ X r * scale <= Dx area /\ Y r * scale <= Dy area.
Proof.
  intros Hint Hwf Hwfit Hhfit r Hrx Hry scale.
  destruct (Dx_fits _ Hint Hwf Hwfit) as [Hdx Hdx0].
  destruct (Dy_fits _ Hint Hwf Hhfit) as [Hdy Hdy0].
  assert (Hix : is_int (Dx area)) by apply wrap_is_int.
  assert (Hiy : is_int (Dy area)) by apply wrap_is_int.
  apply (proj1 (is_int_bounds _)) in Hix, Hiy.
  assert (Hw : 0 <= Dx area / X r <= Dx area).
  { split; [apply Z.div_pos; lia | apply Z.div_le_upper_bound; nia]. }
  assert (Hh : 0 <= Dy area / Y r <= Dy area).
  { split; [apply Z.div_pos; lia | apply Z.div_le_upper_bound; nia]. }
  assert (Hmw : X r * (Dx area / X r) <= Dx area)
    by (apply Z.mul_div_le; lia).
  assert (Hmh : Y r * (Dy area / Y r) <= Dy area)
    by (apply Z.mul_div_le; lia).
  assert (Hs : 0 <= scale) by (unfold scale; lia).
  assert (Hsx : X r * scale <= Dx area) by (unfold scale; nia).
  assert (Hsy : Y r * scale <= Dy area) by (unfold scale; nia).
  split; [|auto].
  destruct (Point_eqb r ZP) eqn:Er.
  { apply Point_eqb_eq in Er. rewrite Er in Hrx. simpl in Hrx. lia. }
  unfold WithRatio. cbv zeta. fold r. rewrite Er.
  destruct (Rectangle_eqb area ZR) eqn:Ea.
  { apply Rectangle_eqb_eq in Ea. simpl.
    assert (Hz : scale = 0).
    { unfold scale. rewrite Ea. change (Dx ZR) with 0.
      change (Dy ZR) with 0. now rewrite !Z.div_0_l by lia. }
    rewrite Hz, Ea. simpl. now rewrite !Z.mul_0_r. }
  simpl. unfold div.
  destruct (Z.eqb_spec (X r) 0); [lia|].
  destruct (Z.eqb_spec (Y r) 0); [lia|].
  assert (Hqw : quo (Dx area) (X r) = Dx area / X r).
  { unfold quo. rewrite Z.quot_div_nonneg by lia.
    apply wrap_small, is_int_bounds. lia. }
  assert (Hqh : quo (Dy area) (Y r) = Dy area / Y r).
  { unfold quo. rewrite Z.quot_div_nonneg by lia.
    apply wrap_small, is_int_bounds. lia. }
  rewrite Hqw, Hqh.
  assert (Hfact : (if Dx area / X r <? Dy area / Y r
                   then Dx area / X r else Dy area / Y r) = scale).
  { unfold scale. destruct (Z.ltb_spec (Dx area / X r) (Dy area / Y r)); lia. }
  rewrite Hfact. clearbody scale. clear Hfact Hqw Hqh Hw Hh Hmw Hmh.
  assert (Hpx : 0 <= X r * scale) by nia.
  assert (Hpy : 0 <= Y r * scale) by nia.
  unfold add, mul.
  set (sx := X r * scale) in *. set (sy := Y r * scale) in *.
  clearbody sx sy. rewrite Hdx in *. rewrite Hdy in *.
  destruct area as [[x0 y0] [x1 y1]]. simpl in *. int_bounds. simpl in *.
  unwrap.
  rewrite Rect_ordered by lia.
  now rewrite (Z.add_comm sx x0), (Z.add_comm sy y0).
Qed.

(** A multiple of a positive divisor below [d] is below the quotient's
    multiple. *)
Lemma multiple_le_quotient (d q k : Z) :
  0 < q -> q * k <= d -> k <= d / q.
Proof.
  intros Hq Hk. apply Z.div_le_lower_bound; [lia|]. lia.
Qed.

End RatioFits.

(** X8: for an area with min <= max whose width and height fit and a
    simplified ratio of two positive components, the result of [WithRatio]
    starts at the min corner of the area, lies inside the area, has exactly
    the simplified ratio (width * ratio.y = height * ratio.x) and is the
    largest such rectangle: every multiple of the simplified ratio that
    fits into the area fits into the result. *)
Theorem WithRatio_fits_inside (area : Rectangle) (ratio : Point) :
  int_rect area -> well_formed area -> width_fits area -> height_fits area ->
  0 < X (numbers.SimplifyRatio ratio) ->
  0 < Y (numbers.SimplifyRatio ratio) ->
  exists res,
    WithRatio area ratio = Some res /\
    Min res = Min area /\
    X (Min res) <= X (Max res) <= X (Max area) /\
    Y (Min res) <= Y (Max res) <= Y (Max area) /\
    Dx res * Y (numbers.SimplifyRatio ratio)
      = Dy res * X (numbers.SimplifyRatio ratio) /\
    forall k, 0 <= k ->
      X (numbers.SimplifyRatio ratio) * k <= Dx area ->
      Y (numbers.SimplifyRatio ratio) * k <= Dy area ->
      X (numbers.SimplifyRatio ratio) * k <= Dx res /\
      Y (numbers.SimplifyRatio ratio) * k <= Dy res.
Proof.
  intros Hint Hwf Hwfit Hhfit Hrx Hry.
  destruct (WithRatio_of_simplified area ratio Hint Hwf Hwfit Hhfit Hrx Hry)
    as (Heq & Hs & Hsx & Hsy).
  set (r := numbers.SimplifyRatio ratio) in *.
  set (scale := Z.min (Dx area / X r) (Dy area / Y r)) in *.
  destruct (Dx_fits _ Hint Hwf Hwfit) as [Hdx Hdx0].
  destruct (Dy_fits _ Hint Hwf Hhfit) as [Hdy Hdy0].
  assert (Hix : is_int (Dx area)) by apply wrap_is_int.
  assert (Hiy : is_int (Dy area)) by apply wrap_is_int.
  apply (proj1 (is_int_bounds _)) in Hix, Hiy.
  assert (Hpx : 0 <= X r * scale) by nia.
  assert (Hpy : 0 <= Y r * scale) by nia.
  eexists. split; [exact Heq|]. split; [reflexivity|].
  assert (Hrdx : Dx (mkRectangle (Min area)
                       (mkPoint (X (Min area) + X r * scale)
                                (Y (Min area) + Y r * scale)))
                 = X r * scale).
  { destruct area as [[x0 y0] [x1 y1]]. simpl.
    rewrite Dx_corners by (apply is_int_bounds; lia). lia. }
  assert (Hrdy : Dy (mkRectangle (Min area)
                       (mkPoint (X (Min area) + X r * scale)
                                (Y (Min area) + Y r * scale)))
                 = Y r * scale).
  { destruct area as [[x0 y0] [x1 y1]]. simpl.
    rewrite Dy_corners by (apply is_int_bounds; lia). lia. }
  rewrite Hrdx, Hrdy. simpl.
  split; [lia|]. split; [lia|]. split; [ring|].
  intros k Hk Hkx Hky.
  assert (Hle : k <= scale).
  { unfold scale. apply Z.min_glb; now apply multiple_le_quotient. }
  split; nia.
Qed.

Lemma WithRatio_fits_inside_witness :
  let area := mkRectangle (mkPoint 1 2) (mkPoint 11 9) in
  exists res,
    WithRatio area (mkPoint 6 4) = Some res /\
    Min res = mkPoint 1 2 /\ X (Max res) <= 11 /\ Y (Max res) <= 9 /\
    Dx res * 2 = Dy res * 3.
Proof.
  intros area.
  destruct (WithRatio_fits_inside area (mkPoint 6 4))
    as (res & Heq & Hmin & Hx & Hy & Hratio & _); [by_eval..|].
  exists res. split; [exact Heq|]. split; [exact Hmin|].
  split; [exact (proj2 Hx)|]. split; [exact (proj2 Hy) | exact Hratio].
Defined.

(** X10: [WithRatio] is idempotent: for an area with min <= max whose width
    and height fit and a simplified ratio of two positive components,
    applying it with the same ratio to its own result returns that
    result. *)
Theorem WithRatio_idempotent (area : Rectangle) (ratio : Point) :
  int_rect area -> well_formed area -> width_fits area -> height_fits area ->
  0 < X (numbers.SimplifyRatio ratio) ->
  0 < Y (numbers.SimplifyRatio ratio) ->
  exists res,
    WithRatio area ratio = Some res /\ WithRatio res ratio = Some res.
Proof.
  intros Hint Hwf Hwfit Hhfit Hrx Hry.
  destruct (WithRatio_of_simplified area ratio Hint Hwf Hwfit Hhfit Hrx Hry)
    as (Heq & Hs & Hsx & Hsy).
  set (r := numbers.SimplifyRatio ratio) in *.
  set (scale := Z.min (Dx area / X r) (Dy area / Y r)) in *.
  clearbody scale.
  destruct (Dx_fits _ Hint Hwf Hwfit) as [Hdx Hdx0].
  destruct (Dy_fits _ Hint Hwf Hhfit) as [Hdy Hdy0].
  assert (Hix : is_int (Dx area)) by apply wrap_is_int.
  assert (Hiy : is_int (Dy area)) by apply wrap_is_int.
  apply (proj1 (is_int_bounds _)) in Hix, Hiy.
  assert (Hpx : 0 <= X r * scale) by nia.
  assert (Hpy : 0 <= Y r * scale) by nia.
  set (res := mkRectangle (Min area)
                (mkPoint (X (Min area) + X r * scale)
                         (Y (Min area) + Y r * scale))) in *.
  exists res. split; [exact Heq|].
  assert (Hrint : int_rect res).
  { unfold res. destruct area as [[x0 y0] [x1 y1]]. simpl in *.
    int_bounds. simpl in *.
    repeat split; simpl; apply is_int_bounds; lia. }
  assert (Hrwf : well_formed res) by (unfold res; split; simpl; lia).
  assert (Hrw : width_fits res).
  { unfold res, width_fits, intMax. simpl. lia. }
  assert (Hrh : height_fits res).
  { unfold res, height_fits, intMax. simpl. lia. }
  destruct (WithRatio_of_simplified res ratio Hrint Hrwf Hrw Hrh Hrx Hry)
    as (Heq2 & _).
  fold r in Heq2. rewrite Heq2.
  assert (Hrdx : Dx res = X r * scale).
  { unfold res. destruct area as [[x0 y0] [x1 y1]]. simpl.
    rewrite Dx_corners by (apply is_int_bounds; lia). lia. }
  assert (Hrdy : Dy res = Y r * scale).
  { unfold res. destruct area as [[x0 y0] [x1 y1]]. simpl.
    rewrite Dy_corners by (apply is_int_bounds; lia). lia. }
  rewrite Hrdx, Hrdy.
  rewrite (Z.mul_comm (X r) scale), (Z.mul_comm (Y r) scale).
  rewrite !Z.div_mul by lia. rewrite Z.min_id.
  reflexivity.
Qed.

Lemma WithRatio_idempotent_witness :
  let area := mkRectangle (mkPoint 1 2) (mkPoint 11 9) in
  exists res,
    WithRatio area (mkPoint 6 4) = Some res /\
    WithRatio res (mkPoint 6 4) = Some res.
Proof.
  intros area.
  apply (WithRatio_idempotent area (mkPoint 6 4)); by_eval.
Defined.

(* ================================================================== *)
(** * Further properties of ExcludeBorder *)

(** X11: on an area of non-negative coordinates with min <= max,
    [ExcludeBorder] returns the zero rectangle exactly when the width or
    the height is below 2.  Otherwise the result has the width and the
    height of the area less 2 and lies strictly inside the area; on a
    dimension of exactly 2 it is an empty rectangle that is not the zero
    rectangle. *)
Theorem ExcludeBorder_zero_iff (area : Rectangle) :
  int_rect area -> well_formed area ->
  0 <= X (Min area) -> 0 <= Y (Min area) ->
  (ExcludeBorder area = ZR <-> Dx area < 2 \/ Dy area < 2) /\
  (2 <= Dx area -> 2 <= Dy area ->
   Dx (ExcludeBorder area) = Dx area - 2 /\
   Dy (ExcludeBorder area) = Dy area - 2 /\
   X (Min area) < X (Min (ExcludeBorder area)) /\
   X (Max (ExcludeBorder area)) < X (Max area) /\
   Y (Min area) < Y (Min (ExcludeBorder area)) /\
   Y (Max (ExcludeBorder area)) < Y (Max area)).
Proof.
  intros Hint Hwf Hx0 Hy0.
  assert (Hin : 2 <= Dx area -> 2 <= Dy area ->
                ExcludeBorder area =
                  mkRectangle (mkPoint (X (Min area) + 1) (Y (Min area) + 1))
                              (mkPoint (X (Max area) - 1) (Y (Max area) - 1))).
  { intros. apply ExcludeBorder_inner; auto; lia. }
  split.
  - split; [|apply ExcludeBorder_small].
    intros Hz.
    destruct (Z_lt_dec (Dx area) 2); [now left|].
    destruct (Z_lt_dec (Dy area) 2); [now right|].
    rewrite Hin in Hz by lia. unfold ZR, ZP in Hz. injection Hz. lia.
  - intros Hw Hh. rewrite (Hin Hw Hh).
    rewrite (Dx_exact _ Hint Hwf) in * by lia.
    rewrite (Dy_exact _ Hint Hwf) in * by lia.
    destruct area as [[x0 y0] [x1 y1]]. simpl in *. int_bounds. simpl in *.
    rewrite Dx_corners, Dy_corners by (apply is_int_bounds; lia).
    lia.
Qed.

Lemma ExcludeBorder_zero_iff_witness :
  let area := mkRectangle (mkPoint 3 3) (mkPoint 5 9) in
  ExcludeBorder area <> ZR /\ Dx (ExcludeBorder area) = 0 /\
  Dy (ExcludeBorder area) = 4.
Proof.
  intros area.
  destruct (ExcludeBorder_zero_iff area) as [Hiff Hdim]; [by_eval..|].
  destruct Hdim as (Hdx & Hdy & _); [by_eval..|].
  split; [|split; [exact Hdx | exact Hdy]].
  intros Hz. apply Hiff in Hz. destruct Hz as [Hz|Hz]; vm_compute in Hz;
    discriminate.
Defined.

(* ================================================================== *)
(** * Further properties of ShrinkPercent *)

Section Halves.

Lemma half_percentage (d : Z) : d * 50 / 100 = d / 2.
Proof. Z.to_euclidean_division_equations. lia. Qed.

End Halves.

(** X12: fifty percent off every side consumes an even dimension and leaves
    one cell of an odd one.  On an area with min <= max whose coordinates
    lie between -MaxInt32 and MaxInt32, [ShrinkPercent area 50 50 50 50] is
    the zero rectangle when the width or the height is even, and otherwise
    the rectangle of width 1 and height 1 that starts at
    (min.x + width/2, min.y + height/2). *)
Theorem ShrinkPercent_halves (area : Rectangle) :
  modest_rect area -> well_formed area ->
  ShrinkPercent area 50 50 50 50 =
    (if (Dx area mod 2 =? 0) || (Dy area mod 2 =? 0) then ZR
     else mkRectangle
            (mkPoint (X (Min area) + Dx area / 2) (Y (Min area) + Dy area / 2))
            (mkPoint (X (Min area) + Dx area / 2 + 1)
                     (Y (Min area) + Dy area / 2 + 1)),
     None).
Proof.
  intros Hm Hwf. modest_open Hm.
  destruct (modest_rect_fits _ Hm) as [Hw Hh].
  pose proof (modest_rect_int _ Hm) as Hint.
  destruct (Dx_fits _ Hint Hwf Hw) as [Hdx Hdx0].
  destruct (Dy_fits _ Hint Hwf Hh) as [Hdy Hdy0].
  assert (Hw100 : Dx area * 100 <= intMax)
    by (rewrite Hdx; unfold intMax; simpl; lia).
  assert (Hh100 : Dy area * 100 <= intMax)
    by (rewrite Hdy; unfold intMax; simpl; lia).
  rewrite ShrinkPercent_delegates by lia.
  destruct (percent_of_fitting (Dx area) 50 Hdx0 Hw100) as [-> _]; [lia|].
  destruct (percent_of_fitting (Dy area) 50 Hdy0 Hh100) as [-> _]; [lia|].
  rewrite !half_percentage.
  pose proof (Z.div_mod (Dx area) 2) as Ex.
  pose proof (Z.div_mod (Dy area) 2) as Ey.
  pose proof (Z.mod_pos_bound (Dx area) 2) as Bx.
  pose proof (Z.mod_pos_bound (Dy area) 2) as By.
  set (hx := Dx area / 2) in *. set (hy := Dy area / 2) in *.
  set (mx := Dx area mod 2) in *. set (my := Dy area mod 2) in *.
  clearbody hx hy mx my. rewrite Hdx, Hdy in *.
  clear Hw100 Hh100.
  destruct ((mx =? 0) || (my =? 0)) eqn:Epar.
  - apply orb_true_iff in Epar. rewrite !Z.eqb_eq in Epar.
    apply Shrink_no_room; auto; try lia;
      unfold intMax, intMin; simpl; lia.
  - apply orb_false_iff in Epar. rewrite !Z.eqb_neq in Epar.
    rewrite Shrink_room by (auto; lia).
    destruct area as [[x0 y0] [x1 y1]]. cbn [X Y Min Max] in *.
    replace (x1 - hx) with (x0 + hx + 1) by lia.
    now replace (y1 - hy) with (y0 + hy + 1) by lia.
Qed.

Lemma ShrinkPercent_halves_witness :
  ShrinkPercent (mkRectangle (mkPoint 0 0) (mkPoint 3 5)) 50 50 50 50
    = (mkRectangle (mkPoint 1 2) (mkPoint 2 3), None) /\
  ShrinkPercent (mkRectangle (mkPoint 0 0) (mkPoint 3 4)) 50 50 50 50
    = (ZR, None).
Proof.
  split.
  - rewrite (ShrinkPercent_halves (mkRectangle (mkPoint 0 0) (mkPoint 3 5)));
      [reflexivity | by_eval ..].
  - rewrite (ShrinkPercent_halves (mkRectangle (mkPoint 0 0) (mkPoint 3 4)));
      [reflexivity | by_eval ..].
Defined.

(* ================================================================== *)
(** * Further properties of cell construction *)

Section CellOrder.

Context `{Collaborators}.

Lemma last_writer_app (f : field) (l1 l2 : list setter) :
  last_writer f (l1 ++ l2) =
    match last_writer f l2 with
    | Some s => Some s
    | None => last_writer f l1
    end.
Proof.
  unfold last_writer. now rewrite rev_app_distr, find_app.
Qed.

Lemma last_writer_some (f : field) (ss : list setter) (s : setter) :
  In s ss -> target s = f -> last_writer f ss <> None.
Proof.
  intros Hin Ht. induction ss as [|a ss IH]; [contradiction|].
  rewrite last_writer_cons. destruct Hin as [->|Hin].
  - destruct (last_writer f ss); [discriminate|].
    now rewrite Ht, field_eqb_refl.
  - specialize (IH Hin).
    destruct (last_writer f ss); [discriminate | now contradiction IH].
Qed.

(** Cells built from lists with the same deciding setters are equal. *)
Lemma same_writers_same_cell (d : list Data) (ss1 ss2 : list setter) :
  (forall f, last_writer f ss1 = last_writer f ss2) ->
  NewCellWithOpts d (map option_of ss1) = NewCellWithOpts d (map option_of ss2).
Proof.
  intros Hsame. unfold NewCellWithOpts. cbv zeta.
  destruct (apply_setters ss1 (mkCell d 1 1 (Some no_overrides)))
    as (c1 & E1 & D1 & A1 & R1); [discriminate|].
  destruct (apply_setters ss2 (mkCell d 1 1 (Some no_overrides)))
    as (c2 & E2 & D2 & A2 & R2); [discriminate|].
  rewrite E1, E2. f_equal. apply Cell_ext; auto.
  - now rewrite D1, D2.
  - intros f. now rewrite R1, R2, Hsame.
Qed.

Lemma swap_writers (f : field) (pre post : list setter) (a b : setter) :
  target a <> target b ->
  last_writer f (pre ++ a :: b :: post) = last_writer f (pre ++ b :: a :: post).
Proof.
  intros Hne. rewrite !last_writer_app, !last_writer_cons.
  destruct (last_writer f post); [reflexivity|].
  destruct (field_eqb (target a) f) eqn:Ea, (field_eqb (target b) f) eqn:Eb;
    try reflexivity.
  apply field_eqb_eq in Ea, Eb. congruence.
Qed.

Lemma drop_overwritten (f : field) (pre post : list setter) (s s' : setter) :
  In s' post -> target s' = target s ->
  last_writer f (pre ++ s :: post) = last_writer f (pre ++ post).
Proof.
  intros Hin Ht. rewrite !last_writer_app, last_writer_cons.
  destruct (last_writer f post) eqn:Ep; [reflexivity|].
  destruct (field_eqb (target s) f) eqn:Es; [|reflexivity].
  apply field_eqb_eq in Es.
  exfalso. apply (last_writer_some f post s'); congruence.
Qed.

Lemma render_fold (render : Data -> string) (l : list Data) (acc : string) :
  fold_left (fun b d => (b ++ render d)%string) l acc =
  (acc ++ fold_right (fun d rest => (render d ++ rest)%string) EmptyString l)%string.
Proof.
  revert acc. induction l as [|d l IH]; intros acc; simpl.
  - induction acc as [|a acc IHa]; simpl; [reflexivity | now rewrite <- IHa].
  - rewrite IH. induction acc as [|a acc IHa]; simpl;
      [reflexivity | now rewrite IHa].
Qed.

Lemma option_of_nil (s : setter) (d : list Data) (cs rs : Z) :
  option_of s (mkCell d cs rs None) =
    if dereferences s then None
    else Some (mkCell d
                 (match s with ColSpan n => n | _ => cs end)
                 (match s with RowSpan n => n | _ => rs end) None).
Proof. destruct s; reflexivity. Qed.

End CellOrder.

(** X13: only the last option written to each field matters.  Two lists of
    setters in which every field has the same last writer build equal
    cells; so exchanging two neighbouring options that write different
    fields changes nothing, and neither does removing an option whose field
    a later option of the list writes again. *)
Theorem NewCellWithOpts_order `{Collaborators} (d : list Data) :
  (forall ss1 ss2 : list setter,
     (forall f, last_writer f ss1 = last_writer f ss2) ->
     NewCellWithOpts d (map option_of ss1)
       = NewCellWithOpts d (map option_of ss2)) /\
  (forall (pre post : list setter) (a b : setter),
     target a <> target b ->
     NewCellWithOpts d (map option_of (pre ++ a :: b :: post))
       = NewCellWithOpts d (map option_of (pre ++ b :: a :: post))) /\
  (forall (pre post : list setter) (s s' : setter),
     In s' post -> target s' = target s ->
     NewCellWithOpts d (map option_of (pre ++ s :: post))
       = NewCellWithOpts d (map option_of (pre ++ post))).
Proof.
  split; [apply same_writers_same_cell|]. split.
  - intros pre post a b Hne. apply same_writers_same_cell.
    intros f. now apply swap_writers.
  - intros pre post s s' Hin Ht. apply same_writers_same_cell.
    intros f. now apply (drop_overwritten f pre post s s').
Qed.

Lemma NewCellWithOpts_order_witness :
  @NewCellWithOpts sample_collaborators ["a"%string]
    [CellColSpan 2; CellHeight 4; CellColSpan 3]
  = @NewCellWithOpts sample_collaborators ["a"%string]
      [CellColSpan 3; CellHeight 4].
Proof.
  destruct (@NewCellWithOpts_order sample_collaborators ["a"%string])
    as (_ & Hswap & Hdrop).
  change (@NewCellWithOpts sample_collaborators ["a"%string]
            (map option_of ([] ++ ColSpan 2 :: [Height 4; ColSpan 3]))
          = @NewCellWithOpts sample_collaborators ["a"%string]
              (map option_of ([] ++ ColSpan 3 :: Height 4 :: []))).
  rewrite (Hdrop [] [Height 4; ColSpan 3] (ColSpan 2) (ColSpan 3));
    [|right; left; reflexivity | reflexivity].
  apply (Hswap [] [] (Height 4) (ColSpan 3)). discriminate.
Defined.

(** X14: [String] renders the data alone.  For every cell built by
    [NewCellWithOpts] from the nine setters, whatever the options, the
    string is ["| "], the renderings of the fragments in order, and [" "];
    for the cell of [NewCell text] it is ["| "], the rendering of the one
    fragment made from the text, and [" "]. *)
Theorem String_ignores_options `{Collaborators} (render : Data -> string) :
  (forall (d : list Data) (ss : list setter),
     exists c,
       NewCellWithOpts d (map option_of ss) = Some c /\
       Cell_String render c =
         ("| " ++ fold_right (fun x rest => render x ++ rest) "" d ++ " ")%string) /\
  (forall text : string,
     exists c,
       NewCell text = Some c /\
       Cell_String render c = ("| " ++ render (NewData text) ++ " ")%string).
Proof.
  assert (Hgen : forall (d : list Data) (ss : list setter),
     exists c,
       NewCellWithOpts d (map option_of ss) = Some c /\
       Cell_String render c =
         ("| " ++ fold_right (fun x rest => render x ++ rest) "" d ++ " ")%string).
  { intros d ss. unfold NewCellWithOpts. cbv zeta.
    destruct (apply_setters ss (mkCell d 1 1 (Some no_overrides)))
      as (c & E & D & _); [discriminate|].
    exists c. split; [exact E|].
    unfold Cell_String. cbv zeta. rewrite D, render_fold. reflexivity. }
  split; [exact Hgen|].
  intros text. eexists. split; [reflexivity|].
  unfold Cell_String. reflexivity.
Qed.

(** X15: an option that writes a hierarchical field dereferences
    [c.hierarchical].  On a cell whose [hierarchical] is nil, applying a
    list of setters panics exactly when the list holds one of the seven
    hierarchical setters; if it holds none, the loop ends with
    [hierarchical] still nil and [data] unchanged. *)
Theorem nil_hierarchical_panics `{Collaborators} (d : list Data)
    (ss : list setter) :
  forall cs rs : Z,
  (apply_opts (map option_of ss) (mkCell d cs rs None) = None <->
   exists s, In s ss /\ dereferences s = true) /\
  (forall c, apply_opts (map option_of ss) (mkCell d cs rs None) = Some c ->
             hierarchical c = None /\ data c = d).
Proof.
  induction ss as [|s ss IH]; intros cs rs.
  - simpl. split.
    + split; [discriminate | intros (s & [] & _)].
    + intros c Hc. injection Hc as <-. now split.
  - simpl. unfold set. rewrite option_of_nil.
    destruct (dereferences s) eqn:Es.
    + split; [|discriminate].
      split; [intros _; exists s; split; [now left | exact Es] | reflexivity].
    + destruct (IH (match s with ColSpan n => n | _ => cs end)
                   (match s with RowSpan n => n | _ => rs end))
        as [Hnone Hsome].
      split; [|exact Hsome].
      rewrite Hnone. split.
      * intros (s' & Hin & Hd). exists s'. split; [now right | exact Hd].
      * intros (s' & [<-|Hin] & Hd); [congruence|]. now exists s'.
Qed.

Lemma nil_hierarchical_panics_witness :
  apply_opts (map option_of [@ColSpan sample_collaborators 2; Height 3])
             (@mkCell sample_collaborators ["a"%string] 1 1 None) = None.
Proof.
  apply (@nil_hierarchical_panics sample_collaborators ["a"%string]
           [ColSpan 2; Height 3] 1 1).
  exists (Height 3). split; [right; left; reflexivity | reflexivity].
Defined.

(* ================================================================== *)
(** * Splitting both ways *)

Section Grid.

Lemma HSplit_inside (x0 y0 x1 y1 p : Z) :
  is_int x0 -> is_int y0 -> is_int x1 -> is_int y1 ->
  x0 <= x1 -> y1 - y0 <= intMax ->
  0 <= p <= 100 -> (y1 - y0) * p <= intMax ->
  0 < (y1 - y0) * p / 100 < y1 - y0 ->
  HSplit (mkRectangle (mkPoint x0 y0) (mkPoint x1 y1)) p =
    (mkRectangle (mkPoint x0 y0) (mkPoint x1 (y0 + (y1 - y0) * p / 100)),
     mkRectangle (mkPoint x0 (y0 + (y1 - y0) * p / 100)) (mkPoint x1 y1),
     None).
Proof.
  intros Hx0 Hy0 Hx1 Hy1 Hx Hfit Hp Hprod Hcut.
  set (area := mkRectangle (mkPoint x0 y0) (mkPoint x1 y1)).
  assert (Hint : int_rect area) by (unfold area, int_rect, int_point; simpl; auto).
  assert (Hwf : well_formed area) by (split; simpl; lia).
  destruct (Dy_fits area Hint Hwf Hfit) as [Hd Hpos]. simpl in Hd.
  rewrite (HSplit_halves area p Hint Hwf Hp Hpos) by (rewrite Hd; lia).
  cbv zeta. rewrite Hd. simpl.
  destruct (Z.eqb_spec ((y1 - y0) * p / 100) 0); [lia|].
  destruct (Z.eqb_spec (y1 - y0 - (y1 - y0) * p / 100) 0); [lia|].
  reflexivity.
Qed.

Lemma VSplit_inside (x0 y0 x1 y1 q : Z) :
  is_int x0 -> is_int y0 -> is_int x1 -> is_int y1 ->
  y0 <= y1 -> x1 - x0 <= intMax ->
  0 <= q <= 100 -> (x1 - x0) * q <= intMax ->
  0 < (x1 - x0) * q / 100 < x1 - x0 ->
  VSplit (mkRectangle (mkPoint x0 y0) (mkPoint x1 y1)) q =
    (mkRectangle (mkPoint x0 y0) (mkPoint (x0 + (x1 - x0) * q / 100) y1),
     mkRectangle (mkPoint (x0 + (x1 - x0) * q / 100) y0) (mkPoint x1 y1),
     None).
Proof.
  intros Hx0 Hy0 Hx1 Hy1 Hy Hfit Hq Hprod Hcut.
  set (area := mkRectangle (mkPoint x0 y0) (mkPoint x1 y1)).
  assert (Hint : int_rect area) by (unfold area, int_rect, int_point; simpl; auto).
  assert (Hwf : well_formed area) by (split; simpl; lia).
  destruct (Dx_fits area Hint Hwf Hfit) as [Hd Hpos]. simpl in Hd.
  rewrite (VSplit_halves area q Hint Hwf Hq Hpos) by (rewrite Hd; lia).
  cbv zeta. rewrite Hd. simpl.
  destruct (Z.eqb_spec ((x1 - x0) * q / 100) 0); [lia|].
  destruct (Z.eqb_spec (x1 - x0 - (x1 - x0) * q / 100) 0); [lia|].
  reflexivity.
Qed.

End Grid.

(** X16: the four cells of a grid do not depend on the order of the cuts.
    When both cuts fall strictly inside the area, splitting it by [HSplit]
    and each half by [VSplit] gives the same four rectangles as splitting
    it by [VSplit] and each half by [HSplit]. *)
Theorem split_grid (area : Rectangle) (heightPerc widthPerc : Z) :
  int_rect area -> well_formed area ->
  width_fits area -> height_fits area ->
  0 <= heightPerc <= 100 -> 0 <= widthPerc <= 100 ->
  Dy area * heightPerc <= intMax -> Dx area * widthPerc <= intMax ->
  0 < Dy area * heightPerc / 100 < Dy area ->
  0 < Dx area * widthPerc / 100 < Dx area ->
  exists top bottom left right tl tr bl br,
    HSplit area heightPerc = (top, bottom, None) /\
    VSplit area widthPerc = (left, right, None) /\
    VSplit top widthPerc = (tl, tr, None) /\
    VSplit bottom widthPerc = (bl, br, None) /\
    HSplit left heightPerc = (tl, bl, None) /\
    HSplit right heightPerc = (tr, br, None).
Proof.
  intros Hint Hwf Hw Hh Hp Hq Hprodh Hprodw Hcuth Hcutw.
  destruct (Dx_fits _ Hint Hwf Hw) as [Hdx _].
  destruct (Dy_fits _ Hint Hwf Hh) as [Hdy _].
  rewrite Hdx, Hdy in *.
  destruct area as [[x0 y0] [x1 y1]].
  destruct Hint as [[Hx0 Hy0] [Hx1 Hy1]]. destruct Hwf as [Hx Hy].
  unfold width_fits, height_fits in *. cbn [X Y Min Max] in *.
  set (h := (y1 - y0) * heightPerc / 100) in *.
  set (w := (x1 - x0) * widthPerc / 100) in *.
  assert (Hih : is_int (y0 + h)).
  { apply is_int_bounds. apply (proj1 (is_int_bounds _)) in Hy0, Hy1. lia. }
  assert (Hiw : is_int (x0 + w)).
  { apply is_int_bounds. apply (proj1 (is_int_bounds _)) in Hx0, Hx1. lia. }
  do 8 eexists.
  split; [apply HSplit_inside; auto; lia|].
  split; [apply VSplit_inside; auto; lia|].
  fold h. fold w.
  split; [rewrite VSplit_inside by (auto; lia); fold w; reflexivity|].
  split; [rewrite VSplit_inside by (auto; lia); fold w; reflexivity|].
  split.
  - rewrite HSplit_inside by (auto; lia). reflexivity.
  - rewrite HSplit_inside by (auto; lia). reflexivity.
Qed.

Lemma split_grid_witness :
  let area := mkRectangle (mkPoint 0 0) (mkPoint 10 20) in
  exists top bottom left right tl tr bl br,
    HSplit area 30 = (top, bottom, None) /\
    VSplit area 40 = (left, right, None) /\
    VSplit top 40 = (tl, tr, None) /\
    VSplit bottom 40 = (bl, br, None) /\
    HSplit left 30 = (tl, bl, None) /\
    HSplit right 30 = (tr, br, None).
Proof.
  intros area. apply (split_grid area 30 40); by_eval.
Defined.

(* ================================================================== *)
(** * ExcludeBorder and Shrink *)

(** X17: on an area of coordinates between 0 and MaxInt32 with
    min <= max whose width and height both exceed 2, excluding the border
    is shrinking by one cell on every side.  At a dimension of exactly 2
    the two differ: [Shrink] returns the zero rectangle, [ExcludeBorder] an
    empty rectangle that is not the zero rectangle. *)
Theorem ExcludeBorder_is_Shrink (area : Rectangle) :
  modest_rect area -> well_formed area ->
  0 <= X (Min area) -> 0 <= Y (Min area) ->
  2 <= Dx area -> 2 <= Dy area ->
  (2 < Dx area -> 2 < Dy area ->
   Shrink area 1 1 1 1 = (ExcludeBorder area, None)) /\
  (Dx area = 2 \/ Dy area = 2 ->
   Shrink area 1 1 1 1 = (ZR, None) /\ ExcludeBorder area <> ZR).
Proof.
  intros Hm Hwf Hx0 Hy0 Hw Hh. modest_open Hm.
  pose proof (modest_rect_int _ Hm) as Hint.
  assert (Hin : ExcludeBorder area =
                  mkRectangle (mkPoint (X (Min area) + 1) (Y (Min area) + 1))
                              (mkPoint (X (Max area) - 1) (Y (Max area) - 1)))
    by (apply ExcludeBorder_inner; auto; lia).
  assert (Hdx : Dx area = X (Max area) - X (Min area))
    by (apply Dx_exact; auto; lia).
  assert (Hdy : Dy area = Y (Max area) - Y (Min area))
    by (apply Dy_exact; auto; lia).
  rewrite Hdx in *. rewrite Hdy in *.
  split.
  - intros Hw2 Hh2. rewrite Hin. apply Shrink_room; auto; lia.
  - intros Htwo. split.
    + apply Shrink_no_room; auto; try lia;
        unfold intMax, intMin; simpl; lia.
    + rewrite Hin. unfold ZR, ZP. intros Hc. injection Hc. lia.
Qed.

Lemma ExcludeBorder_is_Shrink_witness :
  Shrink (mkRectangle (mkPoint 0 0) (mkPoint 5 4)) 1 1 1 1
    = (ExcludeBorder (mkRectangle (mkPoint 0 0) (mkPoint 5 4)), None) /\
  ExcludeBorder (mkRectangle (mkPoint 0 0) (mkPoint 2 4)) <> ZR.
Proof.
  split.
  - apply (ExcludeBorder_is_Shrink (mkRectangle (mkPoint 0 0) (mkPoint 5 4)));
      by_eval.
  - apply (ExcludeBorder_is_Shrink (mkRectangle (mkPoint 0 0) (mkPoint 2 4)));
      [by_eval.. | left; reflexivity].
Defined.
